(** * haram: a virtual-memory simulator (pages, frames, clock replacement)

    Shallow embedding of [lib/util.js], [lib/syscall.js], [lib/exception.js],
    [lib/mmu.js] and [lib/cpu.js], followed by the properties of the
    memory-management loop.

    Conventions.
    - JavaScript numbers that the program only ever uses as integers are [Z];
      a value that may be [undefined] is an [option].
    - [Array] is [list]; [Set] is a duplicate-free [list] in insertion order
      (the clock hand indexes the snapshot [[...set]]); [Map] is [gmap].
    - Numbers that are not integers are binary64 numbers, written as the
      rationals they denote: a product is rounded to the nearest binary64
      number, a decimal literal denotes the binary64 number nearest to it.
    - Every call of [Math.random()] reads the next element of a stream of
      such numbers carried in the state.
    - A method is a function [state -> outcome]: it returns normally with a
      value and a new state, or throws with the state reached at the throw. *)

From Stdlib Require Import ZArith QArith Qround Qpower Lia Lqa.
From stdpp Require Import base option list strings gmap fin_maps.

Local Open Scope Z_scope.

(** ** Outcomes of effectful code *)

(** [lib/exception.js]: the one kernel exception, [Exception.PageFault(pid, page)];
    [TypeError] is the runtime error of reading or writing a property of
    [undefined], of calling what is not a function and of [new] on what is
    not a constructor; [AssertionError] is what a failed [assert] throws. *)
Inductive Exn : Type :=
| PageFault (pid page : Z)
| TypeError
| AssertionError.

(** [OutOfFuel] is not a JavaScript behaviour: it marks that a [while] loop of
    the model used up its iteration budget. *)
Inductive outcome (S A : Type) : Type :=
| Ok (a : A) (s : S)
| Throw (e : Exn) (s : S)
| OutOfFuel.
Arguments Ok {S A} a s.
Arguments Throw {S A} e s.
Arguments OutOfFuel {S A}.

Definition M (S A : Type) : Type := S -> outcome S A.

Definition ret {S A} (a : A) : M S A := fun s => Ok a s.

Definition bind {S A B} (m : M S A) (k : A -> M S B) : M S B :=
  fun s => match m s with
           | Ok a s' => k a s'
           | Throw e s' => Throw e s'
           | OutOfFuel => OutOfFuel
           end.

Definition throw {S A} (e : Exn) : M S A := fun s => Throw e s.

Definition gets {S A} (f : S -> A) : M S A := fun s => Ok (f s) s.

Definition modify {S} (f : S -> S) : M S unit := fun s => Ok tt (f s).

(** [try { m } catch (e) { h(e) }] *)
Definition try_catch {S A} (m : M S A) (h : Exn -> M S A) : M S A :=
  fun s => match m s with
           | Ok a s' => Ok a s'
           | Throw e s' => h e s'
           | OutOfFuel => OutOfFuel
           end.

(** Reading a property of a value that may be [undefined]. *)
Definition defined {S A} (o : option A) : M S A :=
  match o with
  | Some a => ret a
  | None => throw TypeError
  end.

(** Run [m] on a component of the state. *)
Definition zoom {S T A} (proj : S -> T) (upd : T -> S -> S) (m : M T A) : M S A :=
  fun s => match m (proj s) with
           | Ok a t => Ok a (upd t s)
           | Throw e t => Throw e (upd t s)
           | OutOfFuel => OutOfFuel
           end.

Notation "'let*' x ':=' m 'in' k" := (bind m (fun x => k))
  (at level 10, x name, m at level 100, k at level 200).
Notation "m ';;;' k" := (bind m (fun _ => k))
  (at level 100, k at level 200, right associativity).

(** ** JavaScript containers *)

(** [arr[i]] for a number [i]: [undefined] outside [0 .. length-1]. *)
Definition js_index {A} (arr : list A) (i : Z) : option A :=
  if 0 <=? i then arr !! Z.to_nat i else None.

(** [arr[i]] for an index that may itself be [undefined]. *)
Definition js_index_opt {A} (arr : list A) (i : option Z) : option A :=
  match i with
  | Some z => js_index arr z
  | None => None
  end.

(** [arr.pop()]: the last element ([undefined] on an empty array) and the rest. *)
Definition Array_pop {A} (arr : list A) : option A * list A :=
  (last arr, removelast arr).

Definition Set_has (x : Z) (s : list Z) : bool := bool_decide (x ∈ s).

Definition Set_add (x : Z) (s : list Z) : list Z :=
  if Set_has x s then s else s ++ [x].

Definition Set_delete (x : Z) (s : list Z) : list Z :=
  filter (fun y => y ≠ x) s.

(** ** Numbers: IEEE 754 binary64 *)

Module Double.

(** [floor (log2 x)] for a rational [x > 0]. *)
Definition ilog2 (x : Q) : Z :=
  let e := Z.log2 (Qnum x) - Z.log2 (Z.pos (Qden x)) in
  if Qle_bool (2 ^ e) x then e else e - 1.

(** The integer nearest to [x], the even one of two at the same distance. *)
Definition nearest_even (x : Q) : Z :=
  let f := Qfloor x in
  match (x - inject_Z f ?= 1 # 2)%Q with
  | Lt => f
  | Gt => f + 1
  | Eq => if Z.even f then f else f + 1
  end.

(** The binary64 number nearest to [x > 0]: 53 significant bits, the unit in
    the last place not below [2^-1074], that of the subnormal numbers. *)
Definition round_pos (x : Q) : Q :=
  let q := Z.max (ilog2 x) (-1022) - 52 in
  (inject_Z (nearest_even (x / 2 ^ q)) * 2 ^ q)%Q.

(** Round to nearest, ties to even. The program multiplies a number below
    [1] by a length or by the size of a range: no result comes near the
    largest finite number, and overflow to [Infinity] is left out. *)
Definition round (x : Q) : Q :=
  match (x ?= 0)%Q with
  | Eq => 0%Q
  | Gt => round_pos x
  | Lt => (- round_pos (- x))%Q
  end.

(** [x * y] *)
Definition mul (x y : Q) : Q := round (x * y).

(** The finite binary64 numbers that are not negative. *)
Definition is_double (x : Q) : Prop :=
  exists m e : Z,
    0 <= m < 2 ^ 53 /\ -1074 <= e <= 971 /\ (x == inject_Z m * 2 ^ e)%Q.

End Double.

(** ** [lib/util.js] *)

Module Util.

(** The source of [Math.random()]: the stream of binary64 numbers in
    [[0, 1)] and the next position. *)
Record RNG : Type := { draws : nat -> Q; pos : nat }.

Definition Math_random (g : RNG) : Q * RNG :=
  (draws g (pos g), {| draws := draws g; pos := S (pos g) |}).

(** [Math.floor(r * n)], the product being the binary64 one. *)
Definition floor_mul (r : Q) (n : Z) : Z := Qfloor (Double.mul r (inject_Z n)).

(** The body of the [do ... while] of [rand]:
    [num = Math.floor(Math.random() * (max - min + 1)) + min]. *)
Definition rand_draw (min max : Z) (g : RNG) : Z * RNG :=
  let (r, g') := Math_random g in
  (floor_mul r (max - min + 1) + min, g').

(** [rand({min, max})]: without [unique] the loop body runs once. *)
Definition rand (min max : Z) (g : RNG) : Z * RNG := rand_draw min max g.

(** [rand({min, max, unique})]: redraws while [unique(num)] is truthy. *)
Fixpoint rand_unique (fuel : nat) (min max : Z) (unique : Z -> bool) (g : RNG)
  : option (Z * RNG) :=
  match fuel with
  | O => None
  | S fuel' =>
      let (num, g') := rand_draw min max g in
      if unique num then rand_unique fuel' min max unique g'
      else Some (num, g')
  end.

Definition Qlt_bool (x y : Q) : bool := negb (Qle_bool y x).

(** [roll({threshold})]: [Math.random() < threshold], for a threshold that
    the source writes as the decimal literal [threshold]. *)
Definition roll (threshold : Q) (g : RNG) : bool * RNG :=
  let (r, g') := Math_random g in (Qlt_bool r (Double.round threshold), g').

(** [choose(arr)]: [arr[Math.floor(Math.random() * arr.length)]]. *)
Definition choose {A} (arr : list A) (g : RNG) : option A * RNG :=
  let (r, g') := Math_random g in
  (js_index arr (floor_mul r (Z.of_nat (length arr))), g').

End Util.

(** ** [lib/syscall.js] *)

Module Syscall.

(** [page] is what [choose] returned: a page number or [undefined]. *)
Inductive t : Type :=
| AccessMemory (pid : Z) (page : option Z) (modify : bool)
| Exit (pid : Z).

End Syscall.

(** ** [lib/mmu.js] *)

Module PageTableEntry.

(** The constructor sets [presented], [referenced], [modified] and [fid];
    the kernel stores the mapped frame in a property [frame], which is
    [undefined] until the first fault on the page. *)
Record t : Type := {
  presented : bool;
  referenced : bool;
  modified : bool;
  fid : Z;
  frame : option Z
}.

Definition new : t :=
  {| presented := false; referenced := false; modified := false;
     fid := 0; frame := None |}.

Definition set_presented (b : bool) (e : t) : t :=
  {| presented := b; referenced := referenced e; modified := modified e;
     fid := fid e; frame := frame e |}.

Definition set_referenced (b : bool) (e : t) : t :=
  {| presented := presented e; referenced := b; modified := modified e;
     fid := fid e; frame := frame e |}.

Definition set_modified (b : bool) (e : t) : t :=
  {| presented := presented e; referenced := referenced e; modified := b;
     fid := fid e; frame := frame e |}.

Definition set_frame (f : option Z) (e : t) : t :=
  {| presented := presented e; referenced := referenced e;
     modified := modified e; fid := fid e; frame := f |}.

End PageTableEntry.

Module Frame.

Record t : Type := { fid : Z; busy : bool; pid : Z; page : Z }.

Definition new (fid : Z) : t :=
  {| fid := fid; busy := false; pid := 0; page := 0 |}.

(** [frame.busy = b; frame.pid = pid; frame.page = page] *)
Definition assign (b : bool) (pid page : Z) (f : t) : t :=
  {| fid := fid f; busy := b; pid := pid; page := page |}.

End Frame.

Module MMU.

Record t : Type := {
  frameTable : list Frame.t;
  busyTable : list Z;
  freeTable : list Z
}.

Definition with_frameTable (ft : list Frame.t) (m : t) : t :=
  {| frameTable := ft; busyTable := busyTable m; freeTable := freeTable m |}.
Definition with_busyTable (b : list Z) (m : t) : t :=
  {| frameTable := frameTable m; busyTable := b; freeTable := freeTable m |}.
Definition with_freeTable (f : list Z) (m : t) : t :=
  {| frameTable := frameTable m; busyTable := busyTable m; freeTable := f |}.

(** [new MMU()] with the frame count already drawn. *)
Definition make (n : Z) : t :=
  {| frameTable := Frame.new <$> seqZ 0 n;
     busyTable := [];
     freeTable := seqZ 0 n |}.

Definition new (g : Util.RNG) : t * Util.RNG :=
  let (n, g') := Util.rand 512 1024 g in (make n, g').

Definition get (m : t) (fid : Z) : option Frame.t :=
  js_index (frameTable m) fid.

(** The three assignments to the fields of the frame object [get(fid)]. *)
Definition write_frame (fid : Z) (b : bool) (pid page : Z) : M t unit :=
  let* frame := (fun m => defined (get m fid) m) in
  modify (fun m =>
    with_frameTable
      (<[Z.to_nat fid := Frame.assign b pid page frame]> (frameTable m)) m).

Definition alloc (pid page : Z) : M t Z :=
  fun m =>
    if (Z.of_nat (length (freeTable m)) =? 0) then Ok (-1) m
    else
      let (popped, rest) := Array_pop (freeTable m) in
      (let* fid := defined popped in
       write_frame fid true pid page;;;
       modify (fun m => with_busyTable (Set_add fid (busyTable m)) m);;;
       ret fid) (with_freeTable rest m).

Definition free (fid : Z) : M t bool :=
  fun m =>
    if negb (Set_has fid (busyTable m)) then Ok false m
    else
      (write_frame fid false 0 0;;;
       modify (fun m => with_busyTable (Set_delete fid (busyTable m)) m);;;
       modify (fun m => with_freeTable (freeTable m ++ [fid]) m);;;
       ret true) m.

Definition realloc (fid pid page : Z) : M t bool :=
  write_frame fid true pid page;;;
  ret true.

(** [access] works on the page table it is given; the MMU itself is part of
    the state only so that its being untouched can be stated. *)
Definition access (pid : Z) (page : option Z) (modify_ : bool)
  : M (t * list PageTableEntry.t) unit :=
  fun '(m, pageTable) =>
    match page, js_index_opt pageTable page with
    | Some p, Some pte =>
        if negb (PageTableEntry.presented pte) then
          Throw (PageFault pid p) (m, pageTable)
        else
          let pte1 := PageTableEntry.set_referenced true pte in
          let pte2 := if modify_ then PageTableEntry.set_modified true pte1
                      else pte1 in
          Ok tt (m, <[Z.to_nat p := pte2]> pageTable)
    | _, _ => Throw TypeError (m, pageTable)
    end.

End MMU.

(** ** [lib/cpu.js]: processes *)

Module Process.

Record t : Type := {
  pid : Z;
  pageTable : list PageTableEntry.t;
  ttl : Z;
  idleSet : list Z;
  workingSet : list Z;
  workingSetTtl : Z;
  counter : Z
}.

Definition with_pageTable (pt : list PageTableEntry.t) (p : t) : t :=
  {| pid := pid p; pageTable := pt; ttl := ttl p; idleSet := idleSet p;
     workingSet := workingSet p; workingSetTtl := workingSetTtl p;
     counter := counter p |}.

Definition with_counter (c : Z) (p : t) : t :=
  {| pid := pid p; pageTable := pageTable p; ttl := ttl p;
     idleSet := idleSet p; workingSet := workingSet p;
     workingSetTtl := workingSetTtl p; counter := c |}.

(** The [for] loop of [rotate]: one [roll] per page, in page order. *)
Fixpoint distribute (pages : list Z) (working idle : list Z) (g : Util.RNG)
  : list Z * list Z * Util.RNG :=
  match pages with
  | [] => (working, idle, g)
  | page :: rest =>
      let (hot, g') := Util.roll (1 # 5) g in
      if hot then distribute rest (working ++ [page]) idle g'
      else distribute rest working (idle ++ [page]) g'
  end.

Definition rotate (p : t) (g : Util.RNG) : t * Util.RNG :=
  let (d, g1) := Util.rand 128 256 g in
  let '(working, idle, g2) :=
    distribute (seqZ 0 (Z.of_nat (length (pageTable p)))) [] [] g1 in
  ({| pid := pid p; pageTable := pageTable p; ttl := ttl p;
      idleSet := idle; workingSet := working;
      workingSetTtl := workingSetTtl p + d; counter := counter p |}, g2).

(** [new Process(pid)] *)
Definition new (pid : Z) (g : Util.RNG) : t * Util.RNG :=
  let (len, g1) := Util.rand 32 64 g in
  let (ttl, g2) := Util.rand 1024 2048 g1 in
  rotate {| pid := pid;
            pageTable := replicate (Z.to_nat len) PageTableEntry.new;
            ttl := ttl; idleSet := []; workingSet := [];
            workingSetTtl := 0; counter := 0 |} g2.

(** What one call of [run] does before it enters the kernel: the new private
    fields of the process, the syscall it issues and the value it returns
    once [kernel.syscall] has come back. *)
Record step : Type := {
  proc : t;
  rng : Util.RNG;
  issued : Syscall.t;
  terminated : bool
}.

(** [if (counter >= this.#workingSetTtl) this.#rotate()] *)
Definition maybe_rotate (c : Z) (p : t) (g : Util.RNG) : t * Util.RNG :=
  if workingSetTtl p <=? c then rotate p g else (p, g).

(** [roll({threshold: 0.9}) ? this.#workingSet : this.#idleSet] *)
Definition select_set (p : t) (g : Util.RNG) : list Z * Util.RNG :=
  let (working, g) := Util.roll (9 # 10) g in
  (if working then workingSet p else idleSet p, g).

Definition run (p : t) (g : Util.RNG) : step :=
  let c := counter p in
  let p := with_counter (c + 1) p in
  if ttl p <=? c then
    {| proc := p; rng := g; issued := Syscall.Exit (pid p);
       terminated := true |}
  else
    let (p, g) := maybe_rotate c p g in
    let (set, g) := select_set p g in
    let (page, g) := Util.choose set g in
    let (modify_, g) := Util.roll (1 # 2) g in
    {| proc := p; rng := g;
       issued := Syscall.AccessMemory (pid p) page modify_;
       terminated := false |}.

End Process.

(** ** [lib/cpu.js]: the kernel *)

(** A number that is an integer or [NaN]: the clock hand. [Math.min(h, -1)]
    and [% 0] on an empty busy table lead to [NaN]. *)
Inductive Number : Type :=
| NaN
| Int (z : Z).

(** [Math.min(n, z)] *)
Definition Math_min (n : Number) (z : Z) : Number :=
  match n with
  | NaN => NaN
  | Int h => Int (Z.min h z)
  end.

(** [(n + 1) % len] *)
Definition succ_rem (n : Number) (len : Z) : Number :=
  match n with
  | NaN => NaN
  | Int h => if len =? 0 then NaN else Int (Z.rem (h + 1) len)
  end.

(** [arr[n]] *)
Definition index_number {A} (arr : list A) (n : Number) : option A :=
  match n with
  | NaN => None
  | Int h => js_index arr h
  end.

(** [for (const x of arr) body(x)] *)
Fixpoint for_of {S A} (arr : list A) (body : A -> M S unit) : M S unit :=
  match arr with
  | [] => ret tt
  | x :: rest => body x;;; for_of rest body
  end.

Module Kernel.

Definition MAX_PROCESS_COUNT : Z := 25.

(** What [Kernel.#REPLACER[algo]] evaluates to. The registry is an object
    literal with the keys [clock] and [random]; any other key is looked up
    on [Object.prototype], where [constructor] is the function [Object], the
    other properties are methods that are no constructors ([__proto__] is the
    prototype object itself) and the rest is [undefined]. *)
Inductive Registered : Type :=
| ClockClass
| RandomClass
| ObjectFunction
| NotAConstructor
| Unregistered.

Definition Object_prototype_keys : list string :=
  [ "__defineGetter__"; "__defineSetter__"; "hasOwnProperty";
    "__lookupGetter__"; "__lookupSetter__"; "isPrototypeOf";
    "propertyIsEnumerable"; "toString"; "valueOf"; "__proto__";
    "toLocaleString" ]%string.

Definition REPLACER (algo : string) : Registered :=
  if decide (algo = "clock"%string) then ClockClass
  else if decide (algo = "random"%string) then RandomClass
  else if decide (algo = "constructor"%string) then ObjectFunction
  else if bool_decide (algo ∈ Object_prototype_keys) then NotAConstructor
  else Unregistered.

(** The value of the field [#replacer]: a replacer object (the clock
    replacer owns the hand); the kernel itself, which is what
    [new Object(kernel)] returns and which has no method [replace];
    [undefined] as long as the constructor has not assigned the field. *)
Inductive Replacer : Type :=
| ClockReplacer (hand : Number)
| RandomReplacer
| TheKernel
| NoReplacer.

Record Stats : Type := { total : Z; faults : Z; replaced : Z }.

(** [entropy] is the global source of [Math.random()]. *)
Record t : Type := {
  replacer : Replacer;
  processes : gmap Z Process.t;
  mmu : MMU.t;
  accessStats : Stats;
  entropy : Util.RNG
}.

Definition with_replacer (r : Replacer) (k : t) : t :=
  {| replacer := r; processes := processes k; mmu := mmu k;
     accessStats := accessStats k; entropy := entropy k |}.
Definition with_processes (ps : gmap Z Process.t) (k : t) : t :=
  {| replacer := replacer k; processes := ps; mmu := mmu k;
     accessStats := accessStats k; entropy := entropy k |}.
Definition with_mmu (m : MMU.t) (k : t) : t :=
  {| replacer := replacer k; processes := processes k; mmu := m;
     accessStats := accessStats k; entropy := entropy k |}.
Definition with_accessStats (s : Stats) (k : t) : t :=
  {| replacer := replacer k; processes := processes k; mmu := mmu k;
     accessStats := s; entropy := entropy k |}.
Definition with_entropy (g : Util.RNG) (k : t) : t :=
  {| replacer := replacer k; processes := processes k; mmu := mmu k;
     accessStats := accessStats k; entropy := g |}.

Definition on_mmu {A} (m : M MMU.t A) : M t A := zoom mmu with_mmu m.

Definition on_rng {A} (f : Util.RNG -> A * Util.RNG) : M t A :=
  fun k => let (a, g) := f (entropy k) in Ok a (with_entropy g k).

(** [this.#processes.get(pid)] followed by a property read of the result. *)
Definition get_process (pid : Z) : M t Process.t :=
  fun k => defined (processes k !! pid) k.

(** A page-table entry object is named by its owner and its index:
    the entries are created one per index by [new Process] and never moved. *)
Definition Handle : Type := Z * Z.

Definition pte_at (k : t) (h : Handle) : option PageTableEntry.t :=
  match processes k !! h.1 with
  | Some p => js_index (Process.pageTable p) h.2
  | None => None
  end.

(** An assignment to fields of the entry [h]; [TypeError] if there is none. *)
Definition write_pte (h : Handle) (f : PageTableEntry.t -> PageTableEntry.t)
  : M t unit :=
  fun k =>
    match processes k !! h.1 with
    | Some p =>
        match js_index (Process.pageTable p) h.2 with
        | Some pte =>
            Ok tt (with_processes
                     (<[h.1 := Process.with_pageTable
                                 (<[Z.to_nat h.2 := f pte]> (Process.pageTable p)) p]>
                        (processes k)) k)
        | None => Throw TypeError k
        end
    | None => Throw TypeError k
    end.

(** The lines shared by both replacers:
    [frame = mmu.get(fid); process = processes.get(frame.pid);
     pageTable = process.pageTable; pte = pageTable[frame.page]].
    The entry itself may still be [undefined]. *)
Definition resolve (fid : option Z) : M t (Handle * option PageTableEntry.t) :=
  let* frame := (fun k => defined (fid ≫= MMU.get (mmu k)) k) in
  let* process := get_process (Frame.pid frame) in
  ret ((Frame.pid frame, Frame.page frame),
       js_index (Process.pageTable process) (Frame.page frame)).

(** *** [ClockReplacer] *)

(** The state of a clock replacer: its hand and the kernel it points to. *)
Definition ClockState : Type := Number * t.

Definition in_kernel {A} (m : M t A) : M ClockState A :=
  zoom snd (fun k s => (s.1, k)) m.

(** One inspection of the sweep: the entry looked at and the reference bit
    found. The list of inspections is bookkeeping of the model. *)
Definition Inspection : Type := Handle * bool.

(** The [while (true)] of [replace], over the snapshot [busyTable]. *)
Fixpoint clock_loop (fuel : nat) (busyTable : list Z) (trace : list Inspection)
  : M ClockState (Handle * list Inspection) :=
  match fuel with
  | O => fun _ => OutOfFuel
  | S fuel' =>
      let* fid := gets (fun s : ClockState => index_number busyTable s.1) in
      modify (fun s : ClockState =>
                (succ_rem s.1 (Z.of_nat (length busyTable)), s.2));;;
      let* r := in_kernel (resolve fid) in
      let* pte := defined r.2 in
      if negb (PageTableEntry.referenced pte) then
        ret (r.1, trace ++ [(r.1, false)])
      else
        in_kernel (write_pte r.1 (PageTableEntry.set_referenced false));;;
        clock_loop fuel' busyTable (trace ++ [(r.1, true)])
  end.

Definition clock_replace (fuel : nat) : M ClockState (Handle * list Inspection) :=
  let* busyTable := gets (fun s : ClockState => MMU.busyTable (mmu s.2)) in
  modify (fun s : ClockState =>
            (Math_min s.1 (Z.of_nat (length busyTable) - 1), s.2));;;
  clock_loop fuel busyTable [].

(** *** [RandomReplacer] *)

Definition random_replace : M t (option Handle) :=
  let* busyTable := gets (fun k => MMU.busyTable (mmu k)) in
  let* fid := on_rng (Util.choose busyTable) in
  let* r := resolve fid in
  ret (match r.2 with Some _ => Some r.1 | None => None end).

(** [this.#replacer.replace()]: the victim entry, or [undefined]; a
    [TypeError] when the value of [#replacer] has no method [replace]. *)
Definition replace (fuel : nat) : M t (option Handle) :=
  fun k =>
    match replacer k with
    | ClockReplacer hand =>
        zoom (fun k => (hand, k))
             (fun (s : ClockState) _ => with_replacer (ClockReplacer s.1) s.2)
             (let* r := clock_replace fuel in ret (Some r.1)) k
    | RandomReplacer => random_replace k
    | TheKernel | NoReplacer => Throw TypeError k
    end.

(** *** Kernel methods *)

Definition count_fault (s : Stats) : Stats :=
  {| total := total s; faults := faults s + 1; replaced := replaced s |}.
Definition count_replaced (s : Stats) : Stats :=
  {| total := total s; faults := faults s; replaced := replaced s + 1 |}.
Definition count_total (s : Stats) : Stats :=
  {| total := total s + 1; faults := faults s; replaced := replaced s |}.

Definition handlePageFault (fuel : nat) (pid page : Z) : M t unit :=
  modify (fun k => with_accessStats (count_fault (accessStats k)) k);;;
  let* process := get_process pid in
  (* [const pte = pageTable[page]] is the entry named [(pid, page)] *)
  let* fid := on_mmu (MMU.alloc pid page) in
  let* fid :=
    (if fid =? -1 then
       modify (fun k => with_accessStats (count_replaced (accessStats k)) k);;;
       let* victim := replace fuel in
       let* v := defined victim in
       let* ventry := (fun k => defined (pte_at k v) k) in
       let* vfid := defined (PageTableEntry.frame ventry) in
       on_mmu (MMU.realloc vfid pid page);;;
       write_pte v (PageTableEntry.set_presented false);;;
       ret (PageTableEntry.frame ventry)
     else ret (Some fid)) in
  write_pte (pid, page)
    (fun e => PageTableEntry.set_frame fid (PageTableEntry.set_presented true e)).

(** [mmu.free(pte.frame)]; a [Set] does not contain [undefined]. *)
Definition free_frame_of (pte : PageTableEntry.t) : M t bool :=
  match PageTableEntry.frame pte with
  | Some fid => on_mmu (MMU.free fid)
  | None => ret false
  end.

(** [if (pte.presented) this.#mmu.free(pte.frame)] *)
Definition free_if_presented (pte : PageTableEntry.t) : M t unit :=
  if PageTableEntry.presented pte
  then free_frame_of pte;;; ret tt
  else ret tt.

Definition terminateProcess (pid : Z) : M t unit :=
  let* process := get_process pid in
  for_of (Process.pageTable process) free_if_presented;;;
  modify (fun k => with_processes (delete pid (processes k)) k).

(** An error that is no [Exception] has no [type]: no [case] of the
    [switch] matches. *)
Definition handleException (fuel : nat) (exception : Exn) : M t unit :=
  match exception with
  | PageFault pid page => handlePageFault fuel pid page
  | TypeError | AssertionError => ret tt
  end.

(** [this.#mmu.access(pid, pageTable, page, modify)] on the page table of
    [process], which is the object stored under [pid]. *)
Definition access_process (pid : Z) (process : Process.t)
           (page : option Z) (modify_ : bool) : M t unit :=
  zoom (fun k => (mmu k, Process.pageTable process))
       (fun (s : MMU.t * list PageTableEntry.t) k =>
          with_mmu s.1
            (with_processes
               (<[pid := Process.with_pageTable s.2 process]> (processes k)) k))
       (MMU.access pid page modify_).

(** The [try] block of [syscall]. *)
Definition dispatch (sc : Syscall.t) : M t unit :=
  match sc with
  | Syscall.Exit pid => terminateProcess pid
  | Syscall.AccessMemory pid page modify_ =>
      let* process := get_process pid in
      access_process pid process page modify_
  end.

Definition syscall (fuel : nat) (sc : Syscall.t) : M t unit :=
  try_catch (dispatch sc) (handleException fuel).

(** The [for] loop of [#spawn], [n] iterations. *)
Fixpoint spawn_loop (fuel : nat) (n : nat) : M t unit :=
  match n with
  | O => ret tt
  | S n' =>
      let* pid :=
        (fun k =>
           match Util.rand_unique fuel 1000 9999
                   (fun pid => bool_decide (is_Some (processes k !! pid)))
                   (entropy k) with
           | Some (pid, g) => Ok pid (with_entropy g k)
           | None => OutOfFuel
           end) in
      let* process := on_rng (Process.new pid) in
      modify (fun k => with_processes (<[pid := process]> (processes k)) k);;;
      spawn_loop fuel n'
  end.

Definition spawn (fuel : nat) (count : Z) : M t unit :=
  spawn_loop fuel (Z.to_nat (Z.min count MAX_PROCESS_COUNT)).

(** [new Kernel(algo)]: field initialisers, then the constructor body:
    [const Replacer = Kernel.#REPLACER[algo]; assert(Replacer, ...);
     this.#replacer = new Replacer(this); this.#spawn(rand({min: 5, max: 10}))]. *)
Definition new (fuel : nat) (algo : string) (g : Util.RNG) : outcome t unit :=
  let (m, g) := MMU.new g in
  (let* r :=
     match REPLACER algo with
     | ClockClass => ret (ClockReplacer (Int 0))
     | RandomClass => ret RandomReplacer
     | ObjectFunction => ret TheKernel
     | NotAConstructor => throw TypeError
     | Unregistered => throw AssertionError
     end in
   modify (with_replacer r);;;
   let* count := on_rng (Util.rand 5 10) in
   spawn fuel count)
    {| replacer := NoReplacer;
       processes := ∅;
       mmu := m;
       accessStats := {| total := 0; faults := 0; replaced := 0 |};
       entropy := g |}.

(** The body of the inner [for] of [run] for the process object [process]
    that the iteration took from the map under [pid]:
    [this.#accessStats.total++; const terminated = process.run(this)]. *)
Definition run_process (fuel : nat) (pid : Z) (process : Process.t) : M t bool :=
  modify (fun k => with_accessStats (count_total (accessStats k)) k);;;
  let* st := (fun k =>
                let st := Process.run process (entropy k) in
                Ok st (with_entropy (Process.rng st)
                         (with_processes
                            (<[pid := Process.proc st]> (processes k)) k))) in
  syscall fuel (Process.issued st);;;
  ret (Process.terminated st).


(** The inner [for] of [run], [n] iterations left, on the process object
    [process] that the map holds under [pid]. The object the loop runs is the
    one the kernel works on, so after an iteration that did not terminate it
    is read from the map again. *)
Fixpoint run_slice (fuel : nat) (n : nat) (pid : Z) (process : Process.t)
  : M t unit :=
  match n with
  | O => ret tt
  | S n' =>
      let* terminated := run_process fuel pid process in
      if terminated then ret tt
      else
        let* process := get_process pid in
        run_slice fuel n' pid process
  end.

(** The body of the [for ... of this.#processes.values()] of [run]:
    a time slice of [rand({min: 64, max: 128})] steps for one process. *)
Definition run_turn (fuel : nat) (pid : Z) (process : Process.t) : M t unit :=
  let* processTime := on_rng (Util.rand 64 128) in
  run_slice fuel (Z.to_nat processTime) pid process.

End Kernel.

(** * Invariants and specification vocabulary *)

(** ** The MMU *)

(** The busy set and the free list hold valid frame numbers, each at most
    once, and split the frame table between them. *)
Record MMU_wf (m : MMU.t) : Prop := {
  wf_busy_nodup : NoDup (MMU.busyTable m);
  wf_free_nodup : NoDup (MMU.freeTable m);
  wf_disjoint : forall fid, fid ∈ MMU.busyTable m -> fid ∉ MMU.freeTable m;
  wf_busy_range : forall fid,
      fid ∈ MMU.busyTable m -> 0 <= fid < Z.of_nat (length (MMU.frameTable m));
  wf_free_range : forall fid,
      fid ∈ MMU.freeTable m -> 0 <= fid < Z.of_nat (length (MMU.frameTable m));
  wf_cover : forall fid,
      0 <= fid < Z.of_nat (length (MMU.frameTable m)) ->
      fid ∈ MMU.busyTable m \/ fid ∈ MMU.freeTable m
}.

(** The attributes of a frame that is not in use. *)
Definition Frame_cleared (f : Frame.t) : Prop :=
  Frame.busy f = false /\ Frame.pid f = 0 /\ Frame.page f = 0.

(** Every frame of the free list has the attributes of a frame not in use. *)
Definition MMU_clean (m : MMU.t) : Prop :=
  forall fid frame,
    fid ∈ MMU.freeTable m -> MMU.get m fid = Some frame -> Frame_cleared frame.

(** The states an MMU object goes through: built by the constructor, then
    changed by its three mutating methods. *)
Inductive MMU_reachable : MMU.t -> Prop :=
| MMU_reach_make n : MMU_reachable (MMU.make n)
| MMU_reach_alloc m pid page fid m' :
    MMU_reachable m -> MMU.alloc pid page m = Ok fid m' -> MMU_reachable m'
| MMU_reach_free m fid b m' :
    MMU_reachable m -> MMU.free fid m = Ok b m' -> MMU_reachable m'
| MMU_reach_realloc m fid pid page b m' :
    MMU_reachable m -> MMU.realloc fid pid page m = Ok b m' -> MMU_reachable m'.

(** ** Random numbers *)

(** [Math.random()] returns a binary64 number in [[0, 1)]. *)
Definition Q_unit (r : Q) : Prop :=
  Double.is_double r /\ (0 <= r)%Q /\ (r < 1)%Q.

Definition RNG_valid (g : Util.RNG) : Prop := forall i, Q_unit (Util.draws g i).

(** ** Processes *)

(** The working set and the idle set split the page numbers of the process. *)
Definition Process_wf (p : Process.t) : Prop :=
  Process.workingSet p ++ Process.idleSet p
    ≡ₚ seqZ 0 (Z.of_nat (length (Process.pageTable p))).


(** What the specification says of the page of a step that does not exit:
    it is taken from one of the two sets, so it indexes the page table. *)
Definition issues_valid_page (p : Process.t) (g : Util.RNG) : Prop :=
  let st := Process.run p g in
  Process.terminated st = false ->
  exists page modify_,
    Process.issued st = Syscall.AccessMemory (Process.pid p) (Some page) modify_ /\
    (page ∈ Process.workingSet (Process.proc st) \/
     page ∈ Process.idleSet (Process.proc st)) /\
    0 <= page < Z.of_nat (length (Process.pageTable p)).

(** The stream whose every draw is one half. *)
Definition halves : Util.RNG :=
  {| Util.draws := fun _ => (1 # 2)%Q; Util.pos := 0 |}.

(** ** The kernel *)

(** The residency bijection for one process: each of its presented entries
    names a busy frame that records the process and the page, and each busy
    frame that records the process is named by the presented entry of its
    page. *)
Definition residency_bijection (k : Kernel.t) (pid : Z) : Prop :=
  exists process,
    Kernel.processes k !! pid = Some process /\
    (forall page pte,
        js_index (Process.pageTable process) page = Some pte ->
        PageTableEntry.presented pte = true ->
        exists fid frame,
          PageTableEntry.frame pte = Some fid /\
          fid ∈ MMU.busyTable (Kernel.mmu k) /\
          MMU.get (Kernel.mmu k) fid = Some frame /\
          Frame.pid frame = pid /\ Frame.page frame = page) /\
    (forall fid frame,
        fid ∈ MMU.busyTable (Kernel.mmu k) ->
        MMU.get (Kernel.mmu k) fid = Some frame ->
        Frame.pid frame = pid ->
        exists pte,
          js_index (Process.pageTable process) (Frame.page frame) = Some pte /\
          PageTableEntry.presented pte = true /\
          PageTableEntry.frame pte = Some fid).

(** The busy frame [fid] leads to the entry [h] of a live process. *)
Definition resolves_to (k : Kernel.t) (fid : Z) (h : Kernel.Handle)
           (pte : PageTableEntry.t) : Prop :=
  exists frame,
    MMU.get (Kernel.mmu k) fid = Some frame /\
    h = (Frame.pid frame, Frame.page frame) /\
    Kernel.pte_at k h = Some pte.

(** The precondition of [replace]: every busy frame resolves. *)
Definition busy_resolve (k : Kernel.t) : Prop :=
  forall fid, fid ∈ MMU.busyTable (Kernel.mmu k) ->
              exists h pte, resolves_to k fid h pte.

(** An entry after a sweep: as before, or with only its reference bit cleared. *)
Definition PTE_swept (a b : PageTableEntry.t) : Prop :=
  b = a \/ b = PageTableEntry.set_referenced false a.

Definition Process_swept (p p' : Process.t) : Prop :=
  exists pt',
    p' = Process.with_pageTable pt' p /\
    Forall2 PTE_swept (Process.pageTable p) pt'.

(** What a sweep may change in the kernel: reference bits, downwards. *)
Definition Kernel_swept (k k' : Kernel.t) : Prop :=
  Kernel.mmu k' = Kernel.mmu k /\
  Kernel.accessStats k' = Kernel.accessStats k /\
  Kernel.entropy k' = Kernel.entropy k /\
  forall pid,
    option_Forall2 Process_swept
      (Kernel.processes k !! pid) (Kernel.processes k' !! pid).

(** Whether the entry behind the busy frame [fid] has its reference bit set. *)
Definition frame_referenced (k : Kernel.t) (fid : Z) : bool :=
  match MMU.get (Kernel.mmu k) fid with
  | Some frame =>
      match Kernel.pte_at k (Frame.pid frame, Frame.page frame) with
      | Some pte => PageTableEntry.referenced pte
      | None => false
      end
  | None => false
  end.

(** The MMU when the loop of [terminateProcess(pid)], started in [m0], has
    dealt with the first [i] entries: the busy frames that are left are as
    they were, and those of the process belong to pages still to come. *)
Definition freed_upto (pid : Z) (m0 : MMU.t) (i : nat) (m : MMU.t) : Prop :=
  length (MMU.frameTable m) = length (MMU.frameTable m0) /\
  (forall fid, fid ∈ MMU.busyTable m ->
               fid ∈ MMU.busyTable m0 /\ MMU.get m fid = MMU.get m0 fid) /\
  (forall fid frame,
      fid ∈ MMU.busyTable m -> MMU.get m0 fid = Some frame ->
      Frame.pid frame = pid -> Z.of_nat i <= Frame.page frame).

(** A small kernel: process [1000] with two pages, page [0] in frame [3] of
    four. *)
Definition tiny_process : Process.t :=
  {| Process.pid := 1000;
     Process.pageTable :=
       [ {| PageTableEntry.presented := true; PageTableEntry.referenced := true;
            PageTableEntry.modified := false; PageTableEntry.fid := 0;
            PageTableEntry.frame := Some 3 |};
         PageTableEntry.new ];
     Process.ttl := 2; Process.idleSet := [1]; Process.workingSet := [0];
     Process.workingSetTtl := 5; Process.counter := 0 |}.

Definition tiny_mmu : MMU.t :=
  {| MMU.frameTable :=
       [ Frame.new 0; Frame.new 1; Frame.new 2;
         {| Frame.fid := 3; Frame.busy := true; Frame.pid := 1000;
            Frame.page := 0 |} ];
     MMU.busyTable := [3];
     MMU.freeTable := [0; 1; 2] |}.

Definition tiny_kernel : Kernel.t :=
  {| Kernel.replacer := Kernel.ClockReplacer (Int 0);
     Kernel.processes := {[ 1000 := tiny_process ]};
     Kernel.mmu := tiny_mmu;
     Kernel.accessStats :=
       {| Kernel.total := 0; Kernel.faults := 0; Kernel.replaced := 0 |};
     Kernel.entropy := halves |}.

(** The kernel once the reference bit of the entry [h] has been cleared. *)
Definition clear_referenced (k : Kernel.t) (h : Kernel.Handle) : Kernel.t :=
  match Kernel.processes k !! h.1 with
  | Some p =>
      match js_index (Process.pageTable p) h.2 with
      | Some pte =>
          Kernel.with_processes
            (<[h.1 := Process.with_pageTable
                        (<[Z.to_nat h.2 := PageTableEntry.set_referenced false pte]>
                           (Process.pageTable p)) p]> (Kernel.processes k)) k
      | None => k
      end
  | None => k
  end.

(** The hand of a clock replacer is a position: a number, not negative. *)
Definition hand_ok (r : Kernel.Replacer) : Prop :=
  match r with
  | Kernel.ClockReplacer hand => exists h, hand = Int h /\ 0 <= h
  | _ => True
  end.

(** The value of [#replacer] is a replacer object: it has a method
    [replace]. *)
Definition has_replace (r : Kernel.Replacer) : Prop :=
  match r with
  | Kernel.ClockReplacer _ | Kernel.RandomReplacer => True
  | Kernel.TheKernel | Kernel.NoReplacer => False
  end.

(** The invariant of the kernel: the MMU partitions a non-empty frame table,
    every busy frame records a presented entry of a live process that names
    the frame in turn, the hand is a position, the random draws lie in
    [[0, 1)] and the free frames are cleared. *)
Record Kernel_wf (k : Kernel.t) : Prop := {
  kwf_mmu : MMU_wf (Kernel.mmu k);
  kwf_frames : MMU.frameTable (Kernel.mmu k) <> [];
  kwf_busy : forall fid frame,
      fid ∈ MMU.busyTable (Kernel.mmu k) ->
      MMU.get (Kernel.mmu k) fid = Some frame ->
      exists pte,
        Kernel.pte_at k (Frame.pid frame, Frame.page frame) = Some pte /\
        PageTableEntry.presented pte = true /\
        PageTableEntry.frame pte = Some fid;
  kwf_hand : hand_ok (Kernel.replacer k);
  kwf_rng : RNG_valid (Kernel.entropy k);
  kwf_clean : MMU_clean (Kernel.mmu k)
}.

(** ** Spawning *)







(** ** A run under the key [constructor]

    [main.js] hands [process.argv[2]] to [new Kernel(algo)]. The draws below
    are those of a run of [node main.js constructor] in which the memory
    fills within the first tick: 512 frames, ten processes with the pids
    [1000 + floor(562.5 j)], each with 64 pages that all go to the working
    set, a lifetime of 1024 steps and a first rotation after 128; then time
    slices of 64 steps, step [s] of a slice touching page [s]. *)
Definition fill_draw (i : Z) : Q :=
  if i =? 0 then 0
  else if i =? 1 then 7 # 8
  else if i <? 682 then
    let o := (i - 2) mod 68 in
    if o =? 0 then Qmake ((i - 2) / 68) 16
    else if o =? 1 then 63 # 64
    else 0
  else
    let t := (i - 682) mod 193 in
    if t =? 0 then 0
    else if (t - 1) mod 3 =? 1 then Qmake ((t - 1) / 3) 64
    else 0.

Definition fill_stream : Util.RNG :=
  {| Util.draws := fun i => fill_draw (Z.of_nat i); Util.pos := 0 |}.

(** The body of [for (const process of this.#processes.values())] for the
    process that the map holds under [pid]. *)
Definition turn_of (fuel : nat) (pid : Z) : M Kernel.t unit :=
  let* process := Kernel.get_process pid in
  Kernel.run_turn fuel pid process.

(** The inner loop body of [run] up to the point where [process.run(this)]
    enters [kernel.syscall]: the syscall, the value that [run] is going to
    return, and the kernel state at the call. *)
Definition step_entry (pid : Z) (process : Process.t) (k : Kernel.t)
  : Syscall.t * bool * Kernel.t :=
  let k := Kernel.with_accessStats (Kernel.count_total (Kernel.accessStats k)) k in
  let st := Process.run process (Kernel.entropy k) in
  (Process.issued st, Process.terminated st,
   Kernel.with_entropy (Process.rng st)
     (Kernel.with_processes
        (<[pid := Process.proc st]> (Kernel.processes k)) k)).

(** The first eight processes of the run above, in the order of insertion
    into the map. *)
Definition fill_turns : list Z :=
  [1000; 1562; 2125; 2687; 3250; 3812; 4375; 4937].

(** ** Vocabulary of the further properties *)

(** Frame [i] of the frame table carries the number [i]. *)
Definition MMU_indexed (m : MMU.t) : Prop :=
  forall (i : nat) frame,
    MMU.frameTable m !! i = Some frame -> Frame.fid frame = Z.of_nat i.

(** Every presented entry of a live process names a busy frame that records
    the process and the page: the direction of the residency bijection that
    [Kernel_wf] leaves out. *)
Definition entries_resident (k : Kernel.t) : Prop :=
  forall (h : Kernel.Handle) pte,
    Kernel.pte_at k h = Some pte ->
    PageTableEntry.presented pte = true ->
    exists fid frame,
      PageTableEntry.frame pte = Some fid /\
      fid ∈ MMU.busyTable (Kernel.mmu k) /\
      MMU.get (Kernel.mmu k) fid = Some frame /\
      Frame.pid frame = h.1 /\ Frame.page frame = h.2.

(** The [busy] attribute of a frame of the busy set is [true]. *)
Definition busy_flagged (m : MMU.t) : Prop :=
  forall fid frame,
    fid ∈ MMU.busyTable m -> MMU.get m fid = Some frame ->
    Frame.busy frame = true.

(** The memory side of a kernel state of a run. *)
Record Kernel_mem (k : Kernel.t) : Prop := {
  kmem_wf : Kernel_wf k;
  kmem_resident : entries_resident k;
  kmem_flag : busy_flagged (Kernel.mmu k);
  kmem_indexed : MMU_indexed (Kernel.mmu k);
  kmem_frames : (512 <= length (MMU.frameTable (Kernel.mmu k)) <= 1024)%nat
}.

(** The counters: replacements are faults, and faults are accesses. *)
Definition Stats_ordered (s : Kernel.Stats) : Prop :=
  0 <= Kernel.replaced s /\
  Kernel.replaced s <= Kernel.faults s /\
  Kernel.faults s <= Kernel.total s.

(** A live process as the constructor and [run] leave it. *)
Record Process_shape (pid : Z) (p : Process.t) : Prop := {
  shape_pid : Process.pid p = pid;
  shape_range : 1000 <= pid <= 9999;
  shape_pages : (32 <= length (Process.pageTable p) <= 64)%nat;
  shape_ttl : 1024 <= Process.ttl p <= 2048;
  shape_counter : 0 <= Process.counter p <= Process.ttl p;
  shape_rotation : Process.counter p <= Process.workingSetTtl p;
  shape_sets : Process_wf p
}.

(** A process whose page table has been written to, entry by entry. *)
Definition Process_retabled (p p' : Process.t) : Prop :=
  exists pt',
    p' = Process.with_pageTable pt' p /\
    length pt' = length (Process.pageTable p).

Definition Processes_retabled (ps ps' : gmap Z Process.t) : Prop :=
  forall pid, option_Forall2 Process_retabled (ps !! pid) (ps' !! pid).

(** The invariant of the states of a run, beyond [Kernel_wf]. *)
Record Kernel_inv (k : Kernel.t) : Prop := {
  kinv_mem : Kernel_mem k;
  kinv_stats : Stats_ordered (Kernel.accessStats k);
  kinv_procs : forall pid p,
      Kernel.processes k !! pid = Some p -> Process_shape pid p;
  kinv_count : (size (Kernel.processes k) <= 25)%nat
}.

(** The change of the counters over one system call. *)
Definition Stats_step (s s' : Kernel.Stats) : Prop :=
  Kernel.total s' = Kernel.total s /\
  (Kernel.faults s' = Kernel.faults s /\ Kernel.replaced s' = Kernel.replaced s \/
   Kernel.faults s' = Kernel.faults s + 1 /\
   (Kernel.replaced s' = Kernel.replaced s \/
    Kernel.replaced s' = Kernel.replaced s + 1)).

(** The frames that the presented entries of a page table name, in page
    order. *)
Definition resident_frames (pt : list PageTableEntry.t) : list Z :=
  omap (fun pte => if PageTableEntry.presented pte
                   then PageTableEntry.frame pte else None) pt.

(** A kernel without a free frame: process [1000] with two pages, page [0]
    in the only frame. *)
Definition full_process : Process.t :=
  {| Process.pid := 1000;
     Process.pageTable :=
       [ {| PageTableEntry.presented := true; PageTableEntry.referenced := true;
            PageTableEntry.modified := false; PageTableEntry.fid := 0;
            PageTableEntry.frame := Some 0 |};
         PageTableEntry.new ];
     Process.ttl := 2; Process.idleSet := [1]; Process.workingSet := [0];
     Process.workingSetTtl := 5; Process.counter := 0 |}.

Definition full_kernel : Kernel.t :=
  {| Kernel.replacer := Kernel.ClockReplacer (Int 0);
     Kernel.processes := {[ 1000 := full_process ]};
     Kernel.mmu :=
       {| MMU.frameTable :=
            [ {| Frame.fid := 0; Frame.busy := true; Frame.pid := 1000;
                 Frame.page := 0 |} ];
          MMU.busyTable := [0];
          MMU.freeTable := [] |};
     Kernel.accessStats :=
       {| Kernel.total := 0; Kernel.faults := 0; Kernel.replaced := 0 |};
     Kernel.entropy := halves |}.

(** * Properties *)

(** ** Containers *)

Lemma js_index_Some {A} (arr : list A) (i : Z) (x : A) :
  js_index arr i = Some x <-> 0 <= i /\ arr !! Z.to_nat i = Some x.
Proof.
  unfold js_index. destruct (Z.leb_spec 0 i); split.
  - tauto.
  - tauto.
  - discriminate.
  - intros [? _]; lia.
Qed.

Lemma js_index_in_range {A} (arr : list A) (i : Z) :
  0 <= i < Z.of_nat (length arr) -> is_Some (js_index arr i).
Proof.
  intros Hi. unfold js_index. destruct (Z.leb_spec 0 i); [|lia].
  apply lookup_lt_is_Some. lia.
Qed.

Lemma js_index_range {A} (arr : list A) (i : Z) (x : A) :
  js_index arr i = Some x -> 0 <= i < Z.of_nat (length arr).
Proof.
  intros [Hi Hl]%js_index_Some. apply lookup_lt_Some in Hl. lia.
Qed.

Lemma js_index_insert_eq {A} (arr : list A) (i : Z) (x y : A) :
  js_index arr i = Some y -> js_index (<[Z.to_nat i := x]> arr) i = Some x.
Proof.
  intros [Hi Hl]%js_index_Some. apply js_index_Some. split; [done|].
  apply list_lookup_insert_eq. by eapply lookup_lt_Some.
Qed.

Lemma js_index_insert_ne {A} (arr : list A) (i j : Z) (x : A) :
  0 <= i -> i <> j -> js_index (<[Z.to_nat i := x]> arr) j = js_index arr j.
Proof.
  intros Hi Hne. unfold js_index. destruct (Z.leb_spec 0 j); [|done].
  apply list_lookup_insert_ne. lia.
Qed.

Lemma Array_pop_snoc {A} (l : list A) (x : A) :
  Array_pop (l ++ [x]) = (Some x, l).
Proof. unfold Array_pop. by rewrite last_snoc, removelast_last. Qed.

Lemma Set_has_true x s : Set_has x s = true <-> x ∈ s.
Proof. unfold Set_has. by rewrite bool_decide_eq_true. Qed.

Lemma Set_has_false x s : Set_has x s = false <-> x ∉ s.
Proof. unfold Set_has. by rewrite bool_decide_eq_false. Qed.

Lemma elem_of_Set_add x y s : y ∈ Set_add x s <-> y = x \/ y ∈ s.
Proof.
  unfold Set_add. destruct (Set_has x s) eqn:E.
  - apply Set_has_true in E. split; [tauto|]. intros [->|?]; done.
  - rewrite elem_of_app, list_elem_of_singleton. tauto.
Qed.

Lemma elem_of_Set_delete x y s : y ∈ Set_delete x s <-> y <> x /\ y ∈ s.
Proof. unfold Set_delete. by rewrite list_elem_of_filter. Qed.

Lemma NoDup_Set_add x s : NoDup s -> NoDup (Set_add x s).
Proof.
  intros Hs. unfold Set_add. destruct (Set_has x s) eqn:E; [done|].
  apply Set_has_false in E. apply NoDup_app. split_and!; [done| |apply NoDup_singleton].
  intros y Hy ->%list_elem_of_singleton. done.
Qed.

Lemma NoDup_Set_delete x s : NoDup s -> NoDup (Set_delete x s).
Proof. apply NoDup_filter. Qed.

Lemma Set_delete_notin x s : x ∉ s -> Set_delete x s = s.
Proof.
  unfold Set_delete. induction s as [|y s IH]; [done|].
  intros Hx. apply not_elem_of_cons in Hx as [Hne Hx].
  rewrite filter_cons. destruct (decide (y <> x)) as [_|Hn].
  - by rewrite IH.
  - exfalso. apply Hn. congruence.
Qed.

Lemma Set_delete_add x s : x ∉ s -> Set_delete x (Set_add x s) = s.
Proof.
  intros Hx. unfold Set_add. pose proof Hx as ->%Set_has_false.
  unfold Set_delete. rewrite filter_app. fold (Set_delete x s).
  rewrite Set_delete_notin by done.
  rewrite filter_cons. destruct (decide (x <> x)); [done|].
  by rewrite filter_nil, app_nil_r.
Qed.


(** ** The MMU: what each method computes *)

Lemma write_frame_ok m fid b pid page frame :
  MMU.get m fid = Some frame ->
  MMU.write_frame fid b pid page m =
  Ok tt (MMU.with_frameTable
           (<[Z.to_nat fid := Frame.assign b pid page frame]> (MMU.frameTable m)) m).
Proof. intros H. unfold MMU.write_frame, bind, defined. by rewrite H. Qed.

Lemma write_frame_undefined m fid b pid page :
  MMU.get m fid = None ->
  MMU.write_frame fid b pid page m = Throw TypeError m.
Proof. intros H. unfold MMU.write_frame, bind, defined. by rewrite H. Qed.

Lemma alloc_empty m pid page :
  MMU.freeTable m = [] -> MMU.alloc pid page m = Ok (-1) m.
Proof. intros H. unfold MMU.alloc. by rewrite H. Qed.

Lemma alloc_pop m pid page rest fid frame :
  MMU.freeTable m = rest ++ [fid] ->
  MMU.get m fid = Some frame ->
  MMU.alloc pid page m =
  Ok fid {| MMU.frameTable :=
              <[Z.to_nat fid := Frame.assign true pid page frame]> (MMU.frameTable m);
            MMU.busyTable := Set_add fid (MMU.busyTable m);
            MMU.freeTable := rest |}.
Proof.
  intros Hfree Hget. unfold MMU.alloc. rewrite Hfree, Array_pop_snoc.
  rewrite length_app. simpl.
  destruct (Z.eqb_spec (Z.of_nat (length rest + 1)) 0) as [?|_]; [lia|].
  unfold bind at 1. simpl. unfold bind at 1.
  rewrite (write_frame_ok _ _ _ _ _ frame) by done. done.
Qed.

Lemma alloc_pop_undefined m pid page rest fid :
  MMU.freeTable m = rest ++ [fid] ->
  MMU.get m fid = None ->
  MMU.alloc pid page m = Throw TypeError (MMU.with_freeTable rest m).
Proof.
  intros Hfree Hget. unfold MMU.alloc. rewrite Hfree, Array_pop_snoc.
  rewrite length_app. simpl.
  destruct (Z.eqb_spec (Z.of_nat (length rest + 1)) 0) as [?|_]; [lia|].
  unfold bind at 1. simpl. unfold bind at 1.
  rewrite write_frame_undefined by done. done.
Qed.

Lemma free_not_busy m fid :
  fid ∉ MMU.busyTable m -> MMU.free fid m = Ok false m.
Proof. intros H%Set_has_false. unfold MMU.free. by rewrite H. Qed.

Lemma free_busy m fid frame :
  fid ∈ MMU.busyTable m ->
  MMU.get m fid = Some frame ->
  MMU.free fid m =
  Ok true {| MMU.frameTable :=
               <[Z.to_nat fid := Frame.assign false 0 0 frame]> (MMU.frameTable m);
             MMU.busyTable := Set_delete fid (MMU.busyTable m);
             MMU.freeTable := MMU.freeTable m ++ [fid] |}.
Proof.
  intros H%Set_has_true Hget. unfold MMU.free. rewrite H. simpl.
  unfold bind at 1. rewrite (write_frame_ok _ _ _ _ _ frame) by done. done.
Qed.

Lemma free_busy_undefined m fid :
  fid ∈ MMU.busyTable m ->
  MMU.get m fid = None ->
  MMU.free fid m = Throw TypeError m.
Proof.
  intros H%Set_has_true Hget. unfold MMU.free. rewrite H. simpl.
  unfold bind at 1. by rewrite write_frame_undefined.
Qed.

Lemma realloc_ok m fid pid page frame :
  MMU.get m fid = Some frame ->
  MMU.realloc fid pid page m =
  Ok true (MMU.with_frameTable
             (<[Z.to_nat fid := Frame.assign true pid page frame]> (MMU.frameTable m)) m).
Proof.
  intros Hget. unfold MMU.realloc, bind.
  by rewrite (write_frame_ok _ _ _ _ _ frame).
Qed.

Lemma realloc_undefined m fid pid page :
  MMU.get m fid = None ->
  MMU.realloc fid pid page m = Throw TypeError m.
Proof.
  intros Hget. unfold MMU.realloc, bind. by rewrite write_frame_undefined.
Qed.

(** Every normal return of [alloc] is one of the two cases above. *)
Lemma alloc_Ok_inv m pid page fid m' :
  MMU.alloc pid page m = Ok fid m' ->
  (MMU.freeTable m = [] /\ fid = -1 /\ m' = m) \/
  (exists rest frame,
      MMU.freeTable m = rest ++ [fid] /\ MMU.get m fid = Some frame /\
      m' = {| MMU.frameTable :=
                <[Z.to_nat fid := Frame.assign true pid page frame]> (MMU.frameTable m);
              MMU.busyTable := Set_add fid (MMU.busyTable m);
              MMU.freeTable := rest |}).
Proof.
  intros H. destruct (MMU.freeTable m) as [|x l] eqn:Hfree using rev_ind.
  - left. rewrite alloc_empty in H by done. by inversion H.
  - clear IHl. right. destruct (MMU.get m x) as [frame|] eqn:Hget.
    + rewrite (alloc_pop _ _ _ l x frame) in H by done.
      inversion H; subst. eauto.
    + by rewrite (alloc_pop_undefined _ _ _ l x) in H.
Qed.

Lemma free_Ok_inv m fid b m' :
  MMU.free fid m = Ok b m' ->
  ((fid ∉ MMU.busyTable m) /\ b = false /\ m' = m) \/
  (exists frame,
      fid ∈ MMU.busyTable m /\ MMU.get m fid = Some frame /\ b = true /\
      m' = {| MMU.frameTable :=
                <[Z.to_nat fid := Frame.assign false 0 0 frame]> (MMU.frameTable m);
              MMU.busyTable := Set_delete fid (MMU.busyTable m);
              MMU.freeTable := MMU.freeTable m ++ [fid] |}).
Proof.
  intros H. destruct (decide (fid ∈ MMU.busyTable m)) as [Hin|Hout].
  - right. destruct (MMU.get m fid) as [frame|] eqn:Hget.
    + rewrite (free_busy _ _ frame) in H by done. inversion H; subst. eauto.
    + by rewrite free_busy_undefined in H.
  - left. rewrite free_not_busy in H by done. inversion H; subst. auto.
Qed.

Lemma realloc_Ok_inv m fid pid page b m' :
  MMU.realloc fid pid page m = Ok b m' ->
  exists frame,
    MMU.get m fid = Some frame /\ b = true /\
    m' = MMU.with_frameTable
           (<[Z.to_nat fid := Frame.assign true pid page frame]> (MMU.frameTable m)) m.
Proof.
  intros H. destruct (MMU.get m fid) as [frame|] eqn:Hget.
  - rewrite (realloc_ok _ _ _ _ frame) in H by done. inversion H; subst. eauto.
  - by rewrite realloc_undefined in H.
Qed.

(** ** The MMU: the partition invariant *)

Lemma MMU_wf_get m fid :
  MMU_wf m -> fid ∈ MMU.busyTable m \/ fid ∈ MMU.freeTable m ->
  is_Some (MMU.get m fid).
Proof.
  intros Hwf [H|H]; apply js_index_in_range.
  - by apply (wf_busy_range m Hwf).
  - by apply (wf_free_range m Hwf).
Qed.

Lemma MMU_wf_make n : MMU_wf (MMU.make n).
Proof.
  split; simpl.
  - apply NoDup_nil_2.
  - apply NoDup_seqZ.
  - intros fid H. by apply elem_of_nil in H.
  - intros fid H. by apply elem_of_nil in H.
  - intros fid H%elem_of_seqZ. rewrite length_fmap, length_seqZ. lia.
  - intros fid H. right. apply elem_of_seqZ.
    rewrite length_fmap, length_seqZ in H. lia.
Qed.

Lemma MMU_wf_alloc m pid page fid m' :
  MMU_wf m -> MMU.alloc pid page m = Ok fid m' -> MMU_wf m'.
Proof.
  intros Hwf [(_ & _ & ->)|(rest & frame & Hfree & Hget & ->)]%alloc_Ok_inv; [done|].
  pose proof (wf_free_nodup m Hwf) as Hnd. rewrite Hfree in Hnd.
  apply NoDup_app in Hnd as (Hnd & Hnot & _).
  assert (fid ∈ MMU.freeTable m) as Hin
    by (rewrite Hfree, elem_of_app, list_elem_of_singleton; tauto).
  split; simpl.
  - apply NoDup_Set_add, Hwf.
  - done.
  - intros x [->|Hx]%elem_of_Set_add Hr.
    + apply (Hnot _ Hr). by apply list_elem_of_singleton.
    + apply (wf_disjoint m Hwf x Hx). rewrite Hfree, elem_of_app. tauto.
  - intros x [->|Hx]%elem_of_Set_add; rewrite length_insert.
    + by apply (wf_free_range m Hwf).
    + by apply (wf_busy_range m Hwf).
  - intros x Hx. rewrite length_insert. apply (wf_free_range m Hwf).
    rewrite Hfree, elem_of_app. tauto.
  - intros x Hx. rewrite length_insert in Hx.
    rewrite elem_of_Set_add.
    destruct (wf_cover m Hwf x Hx) as [?|Hx']; [tauto|].
    rewrite Hfree, elem_of_app, list_elem_of_singleton in Hx'. tauto.
Qed.

Lemma MMU_wf_free m fid b m' :
  MMU_wf m -> MMU.free fid m = Ok b m' -> MMU_wf m'.
Proof.
  intros Hwf [(_ & _ & ->)|(frame & Hin & Hget & _ & ->)]%free_Ok_inv; [done|].
  split; simpl.
  - apply NoDup_Set_delete, Hwf.
  - apply NoDup_app. split_and!; [apply Hwf| |apply NoDup_singleton].
    intros x Hx ->%list_elem_of_singleton. by apply (wf_disjoint m Hwf fid).
  - intros x [Hne Hx]%elem_of_Set_delete.
    rewrite elem_of_app, list_elem_of_singleton.
    intros [Hr|?]; [|done]. by apply (wf_disjoint m Hwf x).
  - intros x [_ Hx]%elem_of_Set_delete. rewrite length_insert.
    by apply (wf_busy_range m Hwf).
  - intros x. rewrite elem_of_app, list_elem_of_singleton, length_insert.
    intros [Hx| ->]; [by apply (wf_free_range m Hwf)|by apply (wf_busy_range m Hwf)].
  - intros x Hx. rewrite length_insert in Hx.
    rewrite elem_of_Set_delete, elem_of_app, list_elem_of_singleton.
    destruct (decide (x = fid)); [tauto|].
    destruct (wf_cover m Hwf x Hx); tauto.
Qed.

Lemma MMU_wf_realloc m fid pid page b m' :
  MMU_wf m -> MMU.realloc fid pid page m = Ok b m' -> MMU_wf m'.
Proof.
  intros Hwf (frame & Hget & _ & ->)%realloc_Ok_inv.
  destruct Hwf. split; simpl; rewrite ?length_insert; done.
Qed.

Lemma MMU_reachable_wf m : MMU_reachable m -> MMU_wf m.
Proof.
  induction 1;
    eauto using MMU_wf_make, MMU_wf_alloc, MMU_wf_free, MMU_wf_realloc.
Qed.

(** ** The MMU: free frames stay cleared *)


Lemma MMU_clean_alloc m pid page fid m' :
  MMU_wf m -> MMU_clean m -> MMU.alloc pid page m = Ok fid m' -> MMU_clean m'.
Proof.
  intros Hwf Hc [(_ & _ & ->)|(rest & frame & Hfree & Hget & ->)]%alloc_Ok_inv;
    [done|].
  pose proof (wf_free_nodup m Hwf) as Hnd. rewrite Hfree in Hnd.
  apply NoDup_app in Hnd as (_ & Hnot & _).
  intros fid' frame' Hin' Hget'. simpl in Hin'.
  assert (fid' <> fid) as Hne
    by (intros ->; apply (Hnot _ Hin'); by apply list_elem_of_singleton).
  unfold MMU.get in Hget'. simpl in Hget'.
  rewrite js_index_insert_ne in Hget'
    by (apply js_index_range in Hget; lia || done).
  apply (Hc fid' frame'); [|done]. rewrite Hfree, elem_of_app. tauto.
Qed.

Lemma MMU_clean_free m fid b m' :
  MMU_wf m -> MMU_clean m -> MMU.free fid m = Ok b m' -> MMU_clean m'.
Proof.
  intros Hwf Hc [(_ & _ & ->)|(frame & Hin & Hget & _ & ->)]%free_Ok_inv; [done|].
  intros fid' frame' Hin' Hget'. simpl in Hin'.
  unfold MMU.get in Hget'. simpl in Hget'.
  destruct (decide (fid' = fid)) as [->|Hne].
  - erewrite js_index_insert_eq in Hget' by exact Hget.
    by inversion Hget'; subst.
  - rewrite js_index_insert_ne in Hget'
      by (apply js_index_range in Hget; lia || done).
    apply (Hc fid' frame'); [|done].
    apply elem_of_app in Hin' as [?|?%list_elem_of_singleton]; done.
Qed.

Lemma MMU_clean_realloc_busy m fid pid page b m' :
  MMU_wf m -> MMU_clean m -> fid ∈ MMU.busyTable m ->
  MMU.realloc fid pid page m = Ok b m' -> MMU_clean m'.
Proof.
  intros Hwf Hc Hin (frame & Hget & _ & ->)%realloc_Ok_inv.
  intros fid' frame' Hin' Hget'. simpl in Hin'.
  assert (fid' <> fid) as Hne
    by (intros ->; by apply (wf_disjoint m Hwf fid)).
  unfold MMU.get in Hget'. simpl in Hget'.
  rewrite js_index_insert_ne in Hget'
    by (apply js_index_range in Hget; lia || done).
  by apply (Hc fid' frame').
Qed.

(** ** The MMU: sentinels, access, round trips *)

(** C9. [alloc] on an empty free list returns the sentinel [-1] and leaves the
    MMU as it was; [free] of a frame number outside the busy set returns
    [false] and leaves the MMU as it was; whenever [free] returns, it returns
    [true] exactly when the frame number was busy, and in an MMU that
    satisfies the partition invariant it does return for every busy one; a
    second [free] of the same number is the no-op. *)
Theorem alloc_free_sentinels (m : MMU.t) :
  (forall pid page,
      MMU.freeTable m = [] -> MMU.alloc pid page m = Ok (-1) m) /\
  (forall fid,
      fid ∉ MMU.busyTable m -> MMU.free fid m = Ok false m) /\
  (forall fid b m',
      MMU.free fid m = Ok b m' -> (b = true <-> fid ∈ MMU.busyTable m)) /\
  (MMU_wf m ->
   forall fid, fid ∈ MMU.busyTable m -> exists m', MMU.free fid m = Ok true m') /\
  (forall fid b m',
      MMU.free fid m = Ok b m' -> MMU.free fid m' = Ok false m').
Proof.
  split_and!.
  - intros pid page. apply alloc_empty.
  - intros fid. apply free_not_busy.
  - intros fid b m' [(Hout & -> & _)|(frame & Hin & _ & -> & _)]%free_Ok_inv.
    + split; [discriminate|done].
    + done.
  - intros Hwf fid Hin.
    destruct (MMU_wf_get m fid Hwf) as [frame Hget]; [tauto|].
    rewrite (free_busy _ _ frame) by done. eauto.
  - intros fid b m' [(Hout & _ & ->)|(frame & _ & _ & _ & ->)]%free_Ok_inv.
    + by apply free_not_busy.
    + apply free_not_busy. simpl. rewrite elem_of_Set_delete. tauto.
Qed.

(** C4. When [pageTable[page]] exists, [access] throws [PageFault(pid, page)]
    exactly when the entry is not presented, and then neither the page table
    nor the MMU has changed; otherwise it returns, the entry has
    [referenced = true], [modified] has become [true] if [modify] holds and is
    as before if not, and nothing else has changed. *)
Theorem access_page_fault_iff_not_presented
        (m : MMU.t) (pid : Z) (pageTable : list PageTableEntry.t)
        (page : option Z) (modify_ : bool) (pte : PageTableEntry.t) :
  js_index_opt pageTable page = Some pte ->
  exists p,
    page = Some p /\
    ((exists e s, MMU.access pid page modify_ (m, pageTable) = Throw e s) <->
     PageTableEntry.presented pte = false) /\
    (PageTableEntry.presented pte = false ->
     MMU.access pid page modify_ (m, pageTable) =
     Throw (PageFault pid p) (m, pageTable)) /\
    (PageTableEntry.presented pte = true ->
     MMU.access pid page modify_ (m, pageTable) =
     Ok tt (m, <[Z.to_nat p :=
                   {| PageTableEntry.presented := true;
                      PageTableEntry.referenced := true;
                      PageTableEntry.modified :=
                        if modify_ then true else PageTableEntry.modified pte;
                      PageTableEntry.fid := PageTableEntry.fid pte;
                      PageTableEntry.frame := PageTableEntry.frame pte |}]>
                 pageTable)).
Proof.
  intros Hpte. destruct page as [p|]; [|discriminate]. exists p.
  split; [done|]. unfold MMU.access. rewrite Hpte.
  destruct pte as [pr rf md fd fr]; simpl.
  destruct pr; simpl; split_and!.
  - split; [intros (e & s & [=])|discriminate].
  - discriminate.
  - intros _. by destruct modify_.
  - split; eauto.
  - done.
  - discriminate.
Qed.

(** C8. In an MMU whose busy set and free list partition the frames, [alloc]
    returning a frame number followed by [free] of that number gives back the
    busy set and the free list (order included), leaves the frame with the
    attributes of a free frame and every other frame untouched, so the whole
    MMU is as before when the frame had those attributes to begin with, as
    the free frames of a kernel always have ([kwf_clean]); a [realloc] of
    that frame in between changes nothing in the final state. *)
Theorem alloc_free_round_trip (m : MMU.t) (pid page fid : Z) (m1 : MMU.t) :
  MMU_wf m ->
  MMU.alloc pid page m = Ok fid m1 ->
  fid <> -1 ->
  exists frame m2,
    MMU.get m fid = Some frame /\
    MMU.free fid m1 = Ok true m2 /\
    MMU.busyTable m2 = MMU.busyTable m /\
    MMU.freeTable m2 = MMU.freeTable m /\
    MMU.get m2 fid = Some (Frame.assign false 0 0 frame) /\
    (forall fid', fid' <> fid -> MMU.get m2 fid' = MMU.get m fid') /\
    (Frame_cleared frame -> m2 = m) /\
    (MMU_clean m -> m2 = m) /\
    (forall pid' page', exists m1',
        MMU.realloc fid pid' page' m1 = Ok true m1' /\
        MMU.free fid m1' = Ok true m2).
Proof.
  intros Hwf [(_ & -> & _)|(rest & frame & Hfree & Hget & ->)]%alloc_Ok_inv Hne;
    [done|].
  assert (fid ∈ MMU.freeTable m) as Hin
    by (rewrite Hfree, elem_of_app, list_elem_of_singleton; tauto).
  assert (fid ∉ MMU.busyTable m) as Hnb
    by (intros Hb; by apply (wf_disjoint m Hwf fid)).
  pose proof (js_index_range _ _ _ Hget) as Hrange.
  set (m1 := {| MMU.frameTable := _; MMU.busyTable := _; MMU.freeTable := rest |}).
  assert (fid ∈ MMU.busyTable m1) as Hb1 by (apply elem_of_Set_add; tauto).
  assert (MMU.get m1 fid = Some (Frame.assign true pid page frame)) as Hget1
    by (unfold MMU.get; simpl; by eapply js_index_insert_eq).
  exists frame.
  eexists {| MMU.frameTable :=
               <[Z.to_nat fid := Frame.assign false 0 0 frame]> (MMU.frameTable m);
             MMU.busyTable := MMU.busyTable m;
             MMU.freeTable := MMU.freeTable m |}.
  split_and!; simpl.
  - done.
  - rewrite (free_busy _ _ _ Hb1 Hget1). simpl.
    rewrite list_insert_insert_eq, Set_delete_add by done.
    by rewrite Hfree.
  - done.
  - done.
  - unfold MMU.get. simpl. by eapply js_index_insert_eq.
  - intros fid' Hne'. unfold MMU.get. simpl.
    apply js_index_insert_ne; [lia|done].
  - intros (Hb & Hp & Hg). apply js_index_Some in Hget as [_ Hget].
    destruct m as [ft bt frt]; simpl in *. f_equal.
    apply list_insert_id. rewrite Hget.
    destruct frame; simpl in *; by subst.
  - intros Hclean. destruct (Hclean fid frame Hin Hget) as (Hb & Hp & Hg).
    apply js_index_Some in Hget as [_ Hget].
    destruct m as [ft bt frt]; simpl in *. f_equal.
    apply list_insert_id. rewrite Hget.
    destruct frame; simpl in *; by subst.
  - intros pid' page'.
    eexists. split.
    + apply (realloc_ok _ _ _ _ _ Hget1).
    + rewrite (free_busy _ _ (Frame.assign true pid' page'
                                (Frame.assign true pid page frame))).
      * simpl. rewrite !list_insert_insert_eq, Set_delete_add by done.
        by rewrite Hfree.
      * done.
      * unfold MMU.get. simpl. rewrite list_insert_insert_eq.
        by eapply js_index_insert_eq.
Qed.

Lemma alloc_free_sentinels_witness :
  MMU.alloc 1000 7 (MMU.make 0) = Ok (-1) (MMU.make 0) /\
  MMU.free 3 (MMU.make 4) = Ok false (MMU.make 4).
Proof.
  split.
  - apply (proj1 (alloc_free_sentinels (MMU.make 0))). reflexivity.
  - apply (proj1 (proj2 (alloc_free_sentinels (MMU.make 4)))). vm_compute.
    intros H. inversion H.
Defined.

Lemma access_page_fault_iff_not_presented_witness :
  exists p, Some 0 = Some p /\
    MMU.access 1000 (Some 0) true (MMU.make 4, [PageTableEntry.new]) =
    Throw (PageFault 1000 p) (MMU.make 4, [PageTableEntry.new]).
Proof.
  destruct (access_page_fault_iff_not_presented
              (MMU.make 4) 1000 [PageTableEntry.new] (Some 0) true
              PageTableEntry.new eq_refl) as (p & Hp & _ & Hfault & _).
  exists p. split; [exact Hp|]. apply Hfault. reflexivity.
Defined.

Lemma alloc_free_round_trip_witness :
  exists m1 m2,
    MMU.alloc 1000 7 (MMU.make 4) = Ok 3 m1 /\
    MMU.free 3 m1 = Ok true m2 /\
    m2 = MMU.make 4.
Proof.
  eexists. 
  destruct (alloc_free_round_trip (MMU.make 4) 1000 7 3 _ (MMU_wf_make 4) eq_refl)
    as (frame & m2 & Hget & Hfree & _ & _ & _ & _ & Hsame & _ & _); [lia|].
  exists m2. split; [reflexivity|]. split; [exact Hfree|].
  apply Hsame. vm_compute in Hget. inversion Hget. vm_compute. auto.
Defined.

(** ** Random numbers *)

(** *** Rounding to binary64 *)

Lemma pow2_pos (e : Z) : (0 < 2 ^ e)%Q.
Proof. by apply Qpower_0_lt. Qed.

Lemma pow2_plus (a b : Z) : (2 ^ (a + b) == 2 ^ a * 2 ^ b)%Q.
Proof. by apply Qpower_plus. Qed.

Lemma pow2_inject (k : Z) : 0 <= k -> (2 ^ k == inject_Z (2 ^ k))%Q.
Proof. intros Hk. symmetry. by apply (Zpower_Qpower 2 k). Qed.

Lemma ilog2_le (x : Q) : (0 < x)%Q -> (2 ^ Double.ilog2 x <= x)%Q.
Proof.
  intros Hx. unfold Double.ilog2. cbv zeta.
  destruct (Qle_bool _ x) eqn:Hb; [by apply Qle_bool_iff|]. clear Hb.
  destruct x as [a b]. cbn [Qnum Qden].
  assert (0 < a) as Ha by (unfold Qlt in Hx; simpl in Hx; lia).
  pose proof (Z.log2_spec a Ha) as [Hla _].
  pose proof (Z.log2_spec (Z.pos b) ltac:(lia)) as [_ Hlb].
  pose proof (Z.log2_nonneg a) as Hla0.
  pose proof (Z.log2_nonneg (Z.pos b)) as Hlb0.
  set (la := Z.log2 a) in *. set (lb := Z.log2 (Z.pos b)) in *.
  replace (la - lb - 1) with (la + - (lb + 1)) by lia.
  rewrite pow2_plus, Qpower_opp, !pow2_inject by lia.
  apply Qle_shift_div_r.
  - change 0%Q with (inject_Z 0). rewrite <- Zlt_Qlt. lia.
  - unfold Qle, Qmult, inject_Z. simpl.
    replace (Z.succ lb) with (lb + 1) in Hlb by lia. nia.
Qed.

Lemma nearest_even_floor (y : Q) :
  Qfloor y <= Double.nearest_even y <= Qfloor y + 1.
Proof.
  unfold Double.nearest_even. cbv zeta.
  destruct (_ ?= _)%Q; [destruct (Z.even _)| |]; lia.
Qed.

Lemma nearest_even_ub (y : Q) :
  (inject_Z (Double.nearest_even y) <= y + (1 # 2))%Q.
Proof.
  unfold Double.nearest_even. cbv zeta.
  pose proof (Qfloor_le y) as Hf.
  destruct (_ ?= _)%Q eqn:Hc.
  - apply Qeq_alt in Hc.
    destruct (Z.even _); [lra|]. rewrite inject_Z_plus. change (inject_Z 1) with 1%Q. lra.
  - lra.
  - apply Qgt_alt in Hc. rewrite inject_Z_plus. change (inject_Z 1) with 1%Q. lra.
Qed.

Lemma nearest_even_ge (y : Q) (w : Z) :
  (inject_Z w <= y)%Q -> w <= Double.nearest_even y.
Proof.
  intros Hw. pose proof (nearest_even_floor y) as [Hf _].
  apply Qfloor_resp_le in Hw. rewrite Qfloor_Z in Hw. lia.
Qed.

Lemma nearest_even_le (y : Q) (w : Z) :
  (y <= inject_Z w)%Q -> Double.nearest_even y <= w.
Proof.
  intros Hw. unfold Double.nearest_even. cbv zeta.
  pose proof (Qfloor_le y) as Hf.
  assert (Qfloor y <= w) as Hfw
    by (apply Qfloor_resp_le in Hw; by rewrite Qfloor_Z in Hw).
  destruct (Z.eq_dec (Qfloor y) w) as [Heq|Hne].
  - assert (y == inject_Z (Qfloor y))%Q as Hy by (rewrite Heq in *; lra).
    assert ((y - inject_Z (Qfloor y) ?= 1 # 2)%Q = Lt) as ->; [|lia].
    apply (proj1 (Qlt_alt _ _)). lra.
  - destruct (_ ?= _)%Q; [destruct (Z.even _)| |]; lia.
Qed.

Lemma round_pos_nonneg (x : Q) : (0 < x)%Q -> (0 <= Double.round_pos x)%Q.
Proof.
  intros Hx. unfold Double.round_pos. cbv zeta.
  set (q := Z.max _ _ - 52). pose proof (pow2_pos q) as Hq.
  apply Qmult_le_0_compat; [|lra].
  change 0%Q with (inject_Z 0). rewrite <- Zle_Qle.
  apply nearest_even_ge. change (inject_Z 0) with 0%Q.
  apply Qle_shift_div_l; [done|]. lra.
Qed.

(** The rounding error is at most half a unit in the last place. *)
Lemma round_pos_ub (x : Q) :
  (0 < x)%Q ->
  (Double.round_pos x <= x + x * (1 # 9007199254740992) + (1 # 162259276829213363391578010288128))%Q.
Proof.
  intros Hx. unfold Double.round_pos. cbv zeta.
  pose proof (ilog2_le x Hx) as He.
  set (e := Double.ilog2 x) in *. set (q := Z.max e (-1022) - 52).
  pose proof (pow2_pos q) as Hq.
  pose proof (nearest_even_ub (x / 2 ^ q)) as Hn.
  set (z := inject_Z _) in *.
  assert (z * 2 ^ q <= x + (1 # 2) * 2 ^ q)%Q as Hz.
  { apply Qle_trans with ((x / 2 ^ q + (1 # 2)) * 2 ^ q)%Q.
    - apply Qmult_le_compat_r; [exact Hn|lra].
    - generalize dependent (2 ^ q)%Q. intros P HP _ _.
      assert ((x / P + (1 # 2)) * P == x + (1 # 2) * P)%Q as ->; [|apply Qle_refl].
      field. intros H0. rewrite H0 in HP. lra. }
  assert ((1 # 2) * 2 ^ q <= x * (1 # 9007199254740992) + (1 # 162259276829213363391578010288128))%Q; [|lra].
  destruct (Z.max_spec e (-1022)) as [[Hlt Hmax]|[Hge Hmax]].
  - assert (q = -1074) as -> by lia.
    assert (0 <= x * (1 # 9007199254740992))%Q by (apply Qmult_le_0_compat; lra).
    assert ((1 # 2) * 2 ^ (-1074) <= 1 # 162259276829213363391578010288128)%Q; [|lra].
    apply Qle_bool_iff. vm_compute. reflexivity.
  - assert (q = e + -52) as -> by lia.
    rewrite pow2_plus.
    assert ((1 # 2) * 2 ^ (-52) == 1 # 9007199254740992)%Q as Hc
      by (apply Qeq_bool_iff; vm_compute; reflexivity).
    assert ((1 # 2) * (2 ^ e * 2 ^ (-52)) == 2 ^ e * (1 # 9007199254740992))%Q as ->
      by (rewrite <- Hc; ring).
    assert (2 ^ e * (1 # 9007199254740992) <= x * (1 # 9007199254740992))%Q
      by (apply Qmult_le_compat_r; [done|discriminate]).
    lra.
Qed.

(** The largest binary64 number below [1] is [1 - 2^-53]. *)
Lemma is_double_below_1 (r : Q) :
  Double.is_double r -> (r < 1)%Q -> (r <= 1 - (1 # 9007199254740992))%Q.
Proof.
  intros (m & e & [Hm0 Hm] & [He _] & Hr) Hlt.
  destruct (Z.le_gt_cases 0 e) as [Hpos|Hneg].
  - (* an integer below 1 *)
    rewrite pow2_inject, <- inject_Z_mult in Hr by done.
    assert (m * 2 ^ e < 1) as Hz
      by (rewrite Zlt_Qlt; change (inject_Z 1) with 1%Q; by rewrite <- Hr).
    assert (0 < 2 ^ e) by (apply Z.pow_pos_nonneg; lia).
    assert (m = 0) as -> by nia.
    rewrite Hr. simpl. unfold Qle. simpl. lia.
  - set (k := - e). assert (0 < k) as Hk by lia.
    assert (r * inject_Z (2 ^ k) == inject_Z m)%Q as Hrk.
    { rewrite Hr, <- pow2_inject by lia. rewrite <- Qmult_assoc, <- pow2_plus.
      replace (e + k) with 0 by lia. change (2 ^ 0)%Q with 1%Q. ring. }
    assert (0 < 2 ^ k) as HK by (apply Z.pow_pos_nonneg; lia).
    assert (0 < inject_Z (2 ^ k))%Q as HKq
      by (change 0%Q with (inject_Z 0); by rewrite <- Zlt_Qlt).
    assert (m < 2 ^ k) as Hmk.
    { rewrite Zlt_Qlt, <- Hrk.
      apply Qlt_le_trans with (1 * inject_Z (2 ^ k))%Q; [|lra].
      by apply Qmult_lt_compat_r. }
    destruct (Z.le_gt_cases k 53) as [Hsmall|Hbig].
    + (* a multiple of [2^-k] with [k <= 53] *)
      assert (2 ^ k <= 2 ^ 53) as Hp by (apply Z.pow_le_mono_r; lia).
      apply (Qmult_le_r _ _ (inject_Z (2 ^ k))); [done|].
      rewrite Hrk.
      assert ((1 # 9007199254740992) * inject_Z (2 ^ k) <= 1)%Q as Hu.
      { unfold Qle, Qmult, inject_Z. simpl. change (2 ^ 53) with 9007199254740992 in Hp. lia. }
      assert (inject_Z m + 1 <= inject_Z (2 ^ k))%Q as Hm1.
      { change 1%Q with (inject_Z 1). rewrite <- inject_Z_plus, <- Zle_Qle. lia. }
      lra.
    + (* below one half *)
      assert (2 ^ 54 <= 2 ^ k) as Hp by (apply Z.pow_le_mono_r; lia).
      assert (r <= 1 # 2)%Q; [|lra].
      apply (Qmult_le_r _ _ (inject_Z (2 ^ k))); [done|].
      rewrite Hrk.
      unfold Qle, Qmult, inject_Z. simpl.
      change (2 ^ 53) with 9007199254740992 in Hm.
      change (2 ^ 54) with 18014398509481984 in Hp. lia.
Qed.

Lemma round_0 : Double.round 0 = 0%Q.
Proof. reflexivity. Qed.

Lemma round_pos_eq (x : Q) : (0 < x)%Q -> Double.round x = Double.round_pos x.
Proof.
  intros Hx. unfold Double.round.
  by rewrite (proj1 (Qgt_alt x 0) Hx).
Qed.

Lemma round_nonneg (x : Q) : (0 <= x)%Q -> (0 <= Double.round x)%Q.
Proof.
  intros Hx. unfold Double.round.
  destruct (x ?= 0)%Q eqn:Hc.
  - lra.
  - apply Qlt_alt in Hc. lra.
  - apply Qgt_alt in Hc. by apply round_pos_nonneg.
Qed.

(** A product with a binary64 number below [1] stays below the other
    factor, an integer, after rounding. *)
Lemma mul_below (r : Q) (n : Z) :
  Double.is_double r -> (0 <= r)%Q -> (r < 1)%Q -> 0 < n ->
  (0 <= Double.mul r (inject_Z n))%Q /\ (Double.mul r (inject_Z n) < inject_Z n)%Q.
Proof.
  intros Hd Hr0 Hr1 Hn.
  assert (1 <= inject_Z n)%Q as Hn'
    by (change 1%Q with (inject_Z 1); rewrite <- Zle_Qle; lia).
  assert (0 <= r * inject_Z n)%Q as Hx0 by (apply Qmult_le_0_compat; lra).
  split; [by apply round_nonneg|].
  unfold Double.mul, Double.round.
  destruct (r * inject_Z n ?= 0)%Q eqn:Hc.
  - lra.
  - apply Qlt_alt in Hc. lra.
  - apply Qgt_alt in Hc.
    pose proof (round_pos_ub _ Hc) as Hub.
    pose proof (is_double_below_1 r Hd Hr1) as Hr.
    assert (r * inject_Z n
            <= (1 - (1 # 9007199254740992)) * inject_Z n)%Q as Hx
      by (apply Qmult_le_compat_r; lra).
    set (x := (r * inject_Z n)%Q) in *.
    set (N := inject_Z n) in *. lra.
Qed.

(** Rounding a number below [2^53] does not cross an integer. *)
Lemma round_pos_integer (x : Q) (z : Z) :
  (0 < x)%Q -> (x < inject_Z (2 ^ 53))%Q ->
  ((inject_Z z <= x)%Q -> (inject_Z z <= Double.round_pos x)%Q) /\
  ((x <= inject_Z z)%Q -> (Double.round_pos x <= inject_Z z)%Q).
Proof.
  intros Hx Hlt. unfold Double.round_pos. cbv zeta.
  pose proof (ilog2_le x Hx) as He.
  set (e := Double.ilog2 x) in *.
  assert (e < 53) as He53.
  { apply (Qpower_lt_compat_l_inv 2); [|reflexivity].
    rewrite (pow2_inject 53) by lia. lra. }
  set (q := Z.max e (-1022) - 52).
  assert (q <= 0) as Hq by lia.
  set (k := - q). assert (0 <= k) as Hk by lia.
  pose proof (pow2_pos q) as Hq0.
  assert (0 < 2 ^ k) as HK by (apply Z.pow_pos_nonneg; lia).
  assert (2 ^ q * inject_Z (2 ^ k) == 1)%Q as Hinv.
  { rewrite <- pow2_inject, <- pow2_plus by done.
    replace (q + k) with 0 by lia. reflexivity. }
  assert (0 < inject_Z (2 ^ k))%Q as HKq
    by (change 0%Q with (inject_Z 0); by rewrite <- Zlt_Qlt).
  assert (x / 2 ^ q == x * inject_Z (2 ^ k))%Q as Hy.
  { apply (Qmult_inj_r _ _ (2 ^ q)%Q); [lra|].
    rewrite <- Qmult_assoc, (Qmult_comm (inject_Z _)), Hinv. field. lra. }
  split; intros Hz.
  - apply Qle_trans with (inject_Z (z * 2 ^ k) * 2 ^ q)%Q.
    + rewrite inject_Z_mult, <- Qmult_assoc, (Qmult_comm (inject_Z (2 ^ k))), Hinv.
      lra.
    + apply Qmult_le_compat_r; [|lra]. rewrite <- Zle_Qle.
      apply nearest_even_ge. rewrite Hy, inject_Z_mult.
      apply Qmult_le_compat_r; lra.
  - apply Qle_trans with (inject_Z (z * 2 ^ k) * 2 ^ q)%Q.
    + apply Qmult_le_compat_r; [|lra]. rewrite <- Zle_Qle.
      apply nearest_even_le. rewrite Hy, inject_Z_mult.
      apply Qmult_le_compat_r; lra.
    + rewrite inject_Z_mult, <- Qmult_assoc, (Qmult_comm (inject_Z (2 ^ k))), Hinv.
      lra.
Qed.

Lemma floor_mul_range (r : Q) (n : Z) :
  Q_unit r -> 0 < n -> 0 <= Util.floor_mul r n < n.
Proof.
  intros (Hd & Hr0 & Hr1) Hn. unfold Util.floor_mul.
  destruct (mul_below r n Hd Hr0 Hr1 Hn) as [Hlo Hhi]. split.
  - change 0 with (Qfloor 0). by apply Qfloor_resp_le.
  - rewrite Zlt_Qlt. eapply Qle_lt_trans; [apply Qfloor_le|done].
Qed.

(** [Math.floor(r * n)] computed in binary64 is the floor of the product, or
    one more when rounding carries the product up to the next integer. *)
Lemma floor_mul_near (r : Q) (n : Z) :
  (0 <= r)%Q -> (r < 1)%Q -> 0 < n <= 2 ^ 53 ->
  Qfloor (r * inject_Z n) <= Util.floor_mul r n <= Qfloor (r * inject_Z n) + 1.
Proof.
  intros Hr0 Hr1 [Hn Hn53]. unfold Util.floor_mul, Double.mul, Double.round.
  assert (0 < inject_Z n)%Q as Hn'
    by (change 0%Q with (inject_Z 0); by rewrite <- Zlt_Qlt).
  assert (0 <= r * inject_Z n)%Q as Hx0 by (apply Qmult_le_0_compat; lra).
  destruct (r * inject_Z n ?= 0)%Q eqn:Hc.
  - apply Qeq_alt in Hc. rewrite Hc. simpl. lia.
  - apply Qlt_alt in Hc. lra.
  - apply Qgt_alt in Hc.
    assert (r * inject_Z n < inject_Z (2 ^ 53))%Q as Hlt.
    { apply Qlt_le_trans with (1 * inject_Z n)%Q.
      - by apply Qmult_lt_compat_r.
      - rewrite Qmult_1_l. by rewrite <- Zle_Qle. }
    set (x := (r * inject_Z n)%Q) in *.
    destruct (round_pos_integer x (Qfloor x) Hc Hlt) as [Hlo _].
    destruct (round_pos_integer x (Qfloor x + 1) Hc Hlt) as [_ Hhi].
    specialize (Hlo (Qfloor_le x)).
    specialize (Hhi (Qlt_le_weak _ _ (Qlt_floor x))).
    apply Qfloor_resp_le in Hlo, Hhi. rewrite Qfloor_Z in Hlo, Hhi. lia.
Qed.




Lemma choose_eq {A} (arr : list A) (g : Util.RNG) :
  Util.choose arr g =
  (js_index arr (Util.floor_mul (Util.draws g (Util.pos g))
                                (Z.of_nat (length arr))),
   {| Util.draws := Util.draws g; Util.pos := S (Util.pos g) |}).
Proof. done. Qed.

Lemma choose_empty {A} (g : Util.RNG) : (Util.choose (@nil A) g).1 = None.
Proof. rewrite choose_eq. simpl. unfold js_index. by case_match. Qed.

Lemma choose_nonempty {A} (arr : list A) (g : Util.RNG) :
  Q_unit (Util.draws g (Util.pos g)) -> arr <> [] ->
  exists x, (Util.choose arr g).1 = Some x /\ x ∈ arr.
Proof.
  intros Hr Hne. rewrite choose_eq. simpl.
  assert (0 < Z.of_nat (length arr)) as Hlen by (destruct arr; [done|simpl; lia]).
  pose proof (floor_mul_range _ _ Hr Hlen) as Hi.
  destruct (js_index_in_range arr _ Hi) as [x Hx]. exists x. split; [done|].
  apply js_index_Some in Hx as [_ Hx]. by eapply list_elem_of_lookup_2.
Qed.


(** From here on a rounded number is computed only where a proof asks for
    its value. *)
#[global] Opaque Double.round.

(** The fractions with a power of two below them are binary64 numbers. *)
Lemma Q_unit_dyadic (a k : Z) :
  0 <= k <= 53 -> 0 <= a < 2 ^ k -> Q_unit (a # Z.to_pos (2 ^ k)).
Proof.
  intros Hk Ha.
  assert (0 < 2 ^ k) as Hp by (apply Z.pow_pos_nonneg; lia).
  split_and!.
  - exists a, (- k). split_and!; try lia.
    + assert (2 ^ k <= 2 ^ 53) by (apply Z.pow_le_mono_r; lia). lia.
    + rewrite Qpower_opp, pow2_inject by lia.
      rewrite Qmake_Qdiv, Z2Pos.id by done. reflexivity.
  - unfold Qle. simpl. lia.
  - unfold Qlt. simpl. rewrite Z2Pos.id by done. lia.
Qed.

Lemma RNG_valid_halves : RNG_valid halves.
Proof. intros i. apply (Q_unit_dyadic 1 1); lia. Qed.

(** ** Processes: the partition of the pages *)

Lemma distribute_draws pages working idle g :
  Util.draws (Process.distribute pages working idle g).2 = Util.draws g.
Proof.
  revert working idle g. induction pages as [|page rest IH]; intros; [done|].
  simpl. destruct (Util.Qlt_bool _ _); by rewrite IH.
Qed.

Lemma distribute_perm pages working idle g :
  let r := Process.distribute pages working idle g in
  r.1.1 ++ r.1.2 ≡ₚ working ++ idle ++ pages.
Proof.
  revert working idle g. induction pages as [|page rest IH]; intros working idle g.
  - simpl. by rewrite app_nil_r.
  - simpl. destruct (Util.Qlt_bool _ _); rewrite IH.
    + rewrite <- !app_assoc. apply Permutation_app_head.
      rewrite (Permutation_app_comm idle (page :: rest)). simpl.
      constructor. apply Permutation_app_comm.
    + rewrite <- !app_assoc. done.
Qed.

Lemma rotate_fields p g :
  let p' := (Process.rotate p g).1 in
  Process.pid p' = Process.pid p /\
  Process.pageTable p' = Process.pageTable p /\
  Process.ttl p' = Process.ttl p /\
  Process.counter p' = Process.counter p.
Proof.
  unfold Process.rotate. simpl.
  destruct (Process.distribute _ _ _ _) as [[w i] g2]. done.
Qed.

Lemma rotate_wf p g : Process_wf (Process.rotate p g).1.
Proof.
  unfold Process.rotate, Process_wf. simpl.
  pose proof (distribute_perm
                (seqZ 0 (Z.of_nat (length (Process.pageTable p)))) [] []
                {| Util.draws := Util.draws g; Util.pos := S (Util.pos g) |}) as H.
  simpl in H.
  destruct (Process.distribute _ _ _ _) as [[w i] g2]. done.
Qed.

Lemma rotate_draws p g : Util.draws (Process.rotate p g).2 = Util.draws g.
Proof.
  unfold Process.rotate. simpl.
  pose proof (distribute_draws
                (seqZ 0 (Z.of_nat (length (Process.pageTable p)))) [] []
                {| Util.draws := Util.draws g; Util.pos := S (Util.pos g) |}) as H.
  destruct (Process.distribute _ _ _ _) as [[w i] g2]. done.
Qed.

Lemma new_wf pid g : Process_wf (Process.new pid g).1.
Proof. unfold Process.new. simpl. apply rotate_wf. Qed.


Lemma maybe_rotate_fields c p g :
  let p' := (Process.maybe_rotate c p g).1 in
  Process.pid p' = Process.pid p /\
  Process.pageTable p' = Process.pageTable p /\
  Process.ttl p' = Process.ttl p /\
  Process.counter p' = Process.counter p.
Proof.
  unfold Process.maybe_rotate. destruct (_ <=? _); [apply rotate_fields|done].
Qed.

Lemma maybe_rotate_wf c p g :
  Process_wf p -> Process_wf (Process.maybe_rotate c p g).1.
Proof.
  unfold Process.maybe_rotate. destruct (_ <=? _); [intros _; apply rotate_wf|done].
Qed.

Lemma maybe_rotate_draws c p g :
  Util.draws (Process.maybe_rotate c p g).2 = Util.draws g.
Proof.
  unfold Process.maybe_rotate. destruct (_ <=? _); [apply rotate_draws|done].
Qed.

Lemma Process_wf_page p page :
  Process_wf p ->
  page ∈ Process.workingSet p \/ page ∈ Process.idleSet p ->
  0 <= page < Z.of_nat (length (Process.pageTable p)).
Proof.
  unfold Process_wf. intros Hwf Hin. apply elem_of_app in Hin.
  rewrite Hwf in Hin.
  apply elem_of_seqZ in Hin. lia.
Qed.

(** ** Processes: one call of [run] *)

Lemma run_exit p g :
  Process.ttl p <= Process.counter p ->
  Process.run p g =
  {| Process.proc := Process.with_counter (Process.counter p + 1) p;
     Process.rng := g;
     Process.issued := Syscall.Exit (Process.pid p);
     Process.terminated := true |}.
Proof.
  intros H. unfold Process.run. simpl.
  destruct (Z.leb_spec (Process.ttl p) (Process.counter p)); [done|lia].
Qed.

Lemma run_access p g :
  Process.counter p < Process.ttl p ->
  Process.run p g =
  let r := Process.maybe_rotate (Process.counter p)
             (Process.with_counter (Process.counter p + 1) p) g in
  let s := Process.select_set r.1 r.2 in
  let c := Util.choose s.1 s.2 in
  let m := Util.roll (1 # 2) c.2 in
  {| Process.proc := r.1;
     Process.rng := m.2;
     Process.issued := Syscall.AccessMemory (Process.pid r.1) c.1 m.1;
     Process.terminated := false |}.
Proof.
  intros H. unfold Process.run. simpl.
  destruct (Z.leb_spec (Process.ttl p) (Process.counter p)); [lia|].
  destruct (Process.maybe_rotate _ _ _) as [p1 g1]. simpl.
  destruct (Process.select_set p1 g1) as [set g2]. done.
Qed.

(** What a call of [run] does to the counter, and when it exits. *)
Lemma run_counter p g :
  let st := Process.run p g in
  Process.counter (Process.proc st) = Process.counter p + 1 /\
  Process.ttl (Process.proc st) = Process.ttl p /\
  Process.pid (Process.proc st) = Process.pid p /\
  Process.pageTable (Process.proc st) = Process.pageTable p /\
  (Process.ttl p <= Process.counter p ->
   Process.terminated st = true /\
   Process.issued st = Syscall.Exit (Process.pid p)) /\
  (Process.counter p < Process.ttl p ->
   Process.terminated st = false /\
   exists page modify_,
     Process.issued st = Syscall.AccessMemory (Process.pid p) page modify_).
Proof.
  destruct (Z.le_gt_cases (Process.ttl p) (Process.counter p)) as [H|H].
  - rewrite run_exit by done. simpl. split_and!; try done. lia.
  - rewrite run_access by lia. simpl.
    match goal with |- context [Process.maybe_rotate ?c ?q ?h] =>
      pose proof (maybe_rotate_fields c q h) as (H1 & H2 & H3 & H4) end.
    simpl in *. rewrite H1, H2, H3, H4. split_and!; try done; [lia|].
    intros _. split; eauto.
Qed.





(** ** Processes: the page of a step *)

Lemma new_draws pid g : Util.draws (Process.new pid g).2 = Util.draws g.
Proof. unfold Process.new. simpl. by rewrite rotate_draws. Qed.

Lemma length_pos_Z {A} (l : list A) : l <> [] -> 0 < Z.of_nat (length l).
Proof. destruct l; [done|simpl; lia]. Qed.

Lemma select_set_eq p g :
  Process.select_set p g =
  (if (Util.roll (9 # 10) g).1 then Process.workingSet p else Process.idleSet p,
   {| Util.draws := Util.draws g; Util.pos := S (Util.pos g) |}).
Proof. done. Qed.

(** C1, as the code has it. In a step that does not exit, the set is the
    working set when the roll against [0.9] succeeds and the idle set when it
    does not, and there is no second choice: the page of the [AccessMemory]
    syscall is the element of that set at index [Math.floor(r * length)] for
    the next draw [r], and is [undefined] when the set is empty, whatever the
    other set holds. When the set is not empty, the index lies within it and
    is the floor of [r * length], or one more where the rounding of the
    product reaches the next integer, and the page indexes the page table. *)
Theorem run_page_from_selected_set
        (p p' : Process.t) (g g1 g2 : Util.RNG) (set : list Z) :
  Process_wf p ->
  RNG_valid g ->
  Process.counter p < Process.ttl p ->
  Process.maybe_rotate (Process.counter p)
    (Process.with_counter (Process.counter p + 1) p) g = (p', g1) ->
  Process.select_set p' g1 = (set, g2) ->
  let r := Util.draws g2 (Util.pos g2) in
  let index := Util.floor_mul r (Z.of_nat (length set)) in
  set = (if (Util.roll (9 # 10) g1).1
         then Process.workingSet p' else Process.idleSet p') /\
  Process.proc (Process.run p g) = p' /\
  Process.terminated (Process.run p g) = false /\
  (exists modify_,
      Process.issued (Process.run p g) =
        Syscall.AccessMemory (Process.pid p) (js_index set index) modify_) /\
  (set = [] -> js_index set index = None) /\
  (set <> [] ->
   0 <= index < Z.of_nat (length set) /\
   (Z.of_nat (length set) <= 2 ^ 53 ->
    Qfloor (r * inject_Z (Z.of_nat (length set))) <= index
      <= Qfloor (r * inject_Z (Z.of_nat (length set))) + 1) /\
   exists page,
     js_index set index = Some page /\
     page ∈ set /\
     0 <= page < Z.of_nat (length (Process.pageTable p))).
Proof.
  intros Hwf Hg Hlive Hrot Hsel r index.
  pose proof (maybe_rotate_fields (Process.counter p)
                (Process.with_counter (Process.counter p + 1) p) g)
    as (Hpid & Hpt & _ & _).
  pose proof (maybe_rotate_wf (Process.counter p)
                (Process.with_counter (Process.counter p + 1) p) g Hwf) as Hwf'.
  pose proof (maybe_rotate_draws (Process.counter p)
                (Process.with_counter (Process.counter p + 1) p) g) as Hd.
  rewrite Hrot in Hpid, Hpt, Hwf', Hd.
  cbn [fst snd Process.pid Process.pageTable Process.with_counter] in *.
  pose proof Hsel as Hsel'. rewrite select_set_eq in Hsel'.
  pose proof (f_equal fst Hsel') as Hset. pose proof (f_equal snd Hsel') as Hg2.
  cbn [fst snd] in Hset, Hg2. symmetry in Hset. clear Hsel'.
  assert (Util.draws g2 = Util.draws g1) as Hd2 by (by rewrite <- Hg2).
  assert (Q_unit r) as Hr by (unfold r; rewrite Hd2, Hd; apply Hg).
  rewrite run_access by done. cbv zeta. rewrite Hrot. cbn [fst snd].
  rewrite Hsel. cbn [fst snd Process.proc Process.terminated Process.issued].
  rewrite choose_eq. cbn [fst snd]. fold r. fold index.
  assert (set <> [] -> 0 <= index < Z.of_nat (length set)) as Hrange.
  { intros Hne. apply floor_mul_range; [done|]. by apply length_pos_Z. }
  assert (set <> [] -> Z.of_nat (length set) <= 2 ^ 53 ->
          Qfloor (r * inject_Z (Z.of_nat (length set))) <= index
            <= Qfloor (r * inject_Z (Z.of_nat (length set))) + 1) as Hnear.
  { intros Hne Hbig. destruct Hr as (_ & Hr0 & Hr1).
    apply floor_mul_near; [done|done|].
    split; [|done]. by apply length_pos_Z. }
  clearbody index. set (w := (Util.roll (9 # 10) g1).1) in *. clearbody w.
  split; [exact Hset|]. split; [reflexivity|]. split; [reflexivity|].
  split; [rewrite Hpid; by eexists|]. split.
  - intros ->. unfold js_index. by destruct (0 <=? index).
  - intros Hne. pose proof (Hrange Hne) as Hi.
    split; [exact Hi|]. split; [by apply Hnear|].
    destruct (js_index_in_range set _ Hi) as [page Hpage].
    exists page. split; [exact Hpage|].
    assert (page ∈ set) as Hin
      by (apply js_index_Some in Hpage as [_ Hpage];
          by eapply list_elem_of_lookup_2).
    split; [exact Hin|]. rewrite <- Hpt. apply Process_wf_page; [exact Hwf'|].
    rewrite Hset in Hin. destruct w; tauto.
Qed.

Lemma run_page_from_selected_set_witness :
  exists modify_,
    Process.issued
      (Process.run
         {| Process.pid := 1000;
            Process.pageTable := [PageTableEntry.new; PageTableEntry.new];
            Process.ttl := 2; Process.idleSet := [1]; Process.workingSet := [0];
            Process.workingSetTtl := 5; Process.counter := 0 |} halves) =
    Syscall.AccessMemory 1000 (Some 0) modify_.
Proof.
  destruct (run_page_from_selected_set
              {| Process.pid := 1000;
                 Process.pageTable := [PageTableEntry.new; PageTableEntry.new];
                 Process.ttl := 2; Process.idleSet := [1];
                 Process.workingSet := [0];
                 Process.workingSetTtl := 5; Process.counter := 0 |}
              _ halves _ _ [0]
              ltac:(unfold Process_wf; simpl; reflexivity)
              RNG_valid_halves ltac:(simpl; lia)
              ltac:(vm_compute; reflexivity) ltac:(vm_compute; reflexivity))
    as (_ & _ & _ & (m & Hiss) & _).
  exists m. rewrite Hiss. vm_compute. reflexivity.
Defined.

(** C1, as the specification states it, fails on a process fresh from its
    constructor: with every draw at one half no page enters the working set,
    the roll against [0.9] selects it all the same, and the page of the
    syscall is [undefined], though the idle set holds every page. *)
Lemma empty_working_set_issues_undefined_page :
  Process_wf (Process.new 1000 halves).1 /\
  RNG_valid (Process.new 1000 halves).2 /\
  Process.workingSet (Process.new 1000 halves).1 = [] /\
  Process.idleSet (Process.new 1000 halves).1 = seqZ 0 48 /\
  Process.issued (Process.run (Process.new 1000 halves).1
                              (Process.new 1000 halves).2) =
    Syscall.AccessMemory 1000 None false /\
  ~ issues_valid_page (Process.new 1000 halves).1 (Process.new 1000 halves).2.
Proof.
  split_and!.
  - apply new_wf.
  - intros i. rewrite new_draws. apply RNG_valid_halves.
  - vm_compute. reflexivity.
  - vm_compute. reflexivity.
  - vm_compute. reflexivity.
  - intros H. destruct H as (page & m & Hiss & _).
    + vm_compute. reflexivity.
    + vm_compute in Hiss. discriminate.
Qed.

(** ** The kernel: small steps of the monad *)

Lemma bind_Ok {S A B} (m : M S A) (f : A -> M S B) s a s' :
  m s = Ok a s' -> bind m f s = f a s'.
Proof. intros H. unfold bind. by rewrite H. Qed.

Lemma bind_Throw {S A B} (m : M S A) (f : A -> M S B) s e s' :
  m s = Throw e s' -> bind m f s = Throw e s'.
Proof. intros H. unfold bind. by rewrite H. Qed.

Lemma bind_Ok_inv {S A B} (m : M S A) (f : A -> M S B) s b s2 :
  bind m f s = Ok b s2 -> exists a s1, m s = Ok a s1 /\ f a s1 = Ok b s2.
Proof. unfold bind. destruct (m s); [eauto|done|done]. Qed.

Lemma with_mmu_id k : Kernel.with_mmu (Kernel.mmu k) k = k.
Proof. by destruct k. Qed.

Lemma on_mmu_Ok {A} (m : M MMU.t A) k a m' :
  m (Kernel.mmu k) = Ok a m' -> Kernel.on_mmu m k = Ok a (Kernel.with_mmu m' k).
Proof. intros H. unfold Kernel.on_mmu, zoom. by rewrite H. Qed.


Lemma get_process_Some k pid process :
  Kernel.processes k !! pid = Some process ->
  Kernel.get_process pid k = Ok process k.
Proof. intros H. unfold Kernel.get_process. by rewrite H. Qed.

Lemma get_process_None k pid :
  Kernel.processes k !! pid = None ->
  Kernel.get_process pid k = Throw TypeError k.
Proof. intros H. unfold Kernel.get_process. by rewrite H. Qed.

(** ** The kernel: termination of a process *)

Section Terminate.

Variable pid : Z.
Variable pt : list PageTableEntry.t.
Variable m0 : MMU.t.

(** The bijection, read on the page table [pt] and the MMU [m0] the loop
    starts from. *)
Hypothesis Hentry : forall page pte,
    js_index pt page = Some pte ->
    PageTableEntry.presented pte = true ->
    exists fid frame,
      PageTableEntry.frame pte = Some fid /\
      fid ∈ MMU.busyTable m0 /\
      MMU.get m0 fid = Some frame /\
      Frame.pid frame = pid /\ Frame.page frame = page.
Hypothesis Hframe : forall fid frame,
    fid ∈ MMU.busyTable m0 ->
    MMU.get m0 fid = Some frame ->
    Frame.pid frame = pid ->
    exists pte,
      js_index pt (Frame.page frame) = Some pte /\
      PageTableEntry.presented pte = true /\
      PageTableEntry.frame pte = Some fid.

Lemma free_if_presented_step i pte k :
  pt !! i = Some pte ->
  freed_upto pid m0 i (Kernel.mmu k) ->
  exists m', Kernel.free_if_presented pte k = Ok tt (Kernel.with_mmu m' k) /\
             freed_upto pid m0 (S i) m'.
Proof.
  intros Hi (Hlen & Hsame & Hlater).
  assert (js_index pt (Z.of_nat i) = Some pte) as Hjs
    by (apply js_index_Some; rewrite Nat2Z.id; split; [lia|done]).
  assert (forall fid frame,
             fid ∈ MMU.busyTable (Kernel.mmu k) ->
             MMU.get m0 fid = Some frame -> Frame.pid frame = pid ->
             Frame.page frame = Z.of_nat i ->
             PageTableEntry.presented pte = true /\
             PageTableEntry.frame pte = Some fid) as Hhere.
  { intros fid frame Hb Hg Hp Hpage.
    destruct (Hframe fid frame) as (pte' & Hpte' & ? & ?);
      [by apply Hsame|done|done|].
    rewrite Hpage, Hjs in Hpte'. by inversion Hpte'; subst. }
  unfold Kernel.free_if_presented.
  destruct (PageTableEntry.presented pte) eqn:Hpres.
  - destruct (Hentry _ _ Hjs Hpres) as (fid & frame & Hfr & Hb0 & Hg0 & Hp & Hpg).
    unfold Kernel.free_frame_of. rewrite Hfr.
    destruct (decide (fid ∈ MMU.busyTable (Kernel.mmu k))) as [Hb|Hnb].
    + destruct (Hsame fid Hb) as [_ Hg]. rewrite Hg0 in Hg.
      eexists. split.
      * erewrite bind_Ok; [reflexivity|].
        apply on_mmu_Ok. by apply free_busy.
      * split_and!; simpl.
        -- by rewrite length_insert.
        -- intros fid' [Hne Hb']%elem_of_Set_delete.
           destruct (Hsame fid' Hb') as [? Hg']. split; [done|].
           rewrite <- Hg'. unfold MMU.get. simpl.
           apply js_index_insert_ne; [|done].
           apply js_index_range in Hg. lia.
        -- intros fid' frame' [Hne Hb']%elem_of_Set_delete Hg' Hp'.
           pose proof (Hlater _ _ Hb' Hg' Hp') as Hle.
           destruct (decide (Frame.page frame' = Z.of_nat i)) as [Heq|?]; [|lia].
           destruct (Hhere _ _ Hb' Hg' Hp' Heq) as [_ Hfr'].
           congruence.
    + exists (Kernel.mmu k). split.
      * erewrite bind_Ok; [by rewrite with_mmu_id|].
        erewrite on_mmu_Ok; [by rewrite with_mmu_id|]. by apply free_not_busy.
      * split_and!; [done|done|].
        intros fid' frame' Hb' Hg' Hp'.
        pose proof (Hlater _ _ Hb' Hg' Hp') as Hle.
        destruct (decide (Frame.page frame' = Z.of_nat i)) as [Heq|?]; [|lia].
        destruct (Hhere _ _ Hb' Hg' Hp' Heq) as [_ Hfr'].
        congruence.
  - exists (Kernel.mmu k). split; [by rewrite with_mmu_id|].
    split_and!; [done|done|].
    intros fid' frame' Hb' Hg' Hp'.
    pose proof (Hlater _ _ Hb' Hg' Hp') as Hle.
    destruct (decide (Frame.page frame' = Z.of_nat i)) as [Heq|?]; [|lia].
    destruct (Hhere _ _ Hb' Hg' Hp' Heq) as [? _]. congruence.
Qed.

Lemma free_loop done rest k :
  pt = done ++ rest ->
  freed_upto pid m0 (length done) (Kernel.mmu k) ->
  exists m', for_of rest Kernel.free_if_presented k =
             Ok tt (Kernel.with_mmu m' k) /\
             freed_upto pid m0 (length pt) m'.
Proof.
  revert done k. induction rest as [|pte rest IH]; intros done k Hpt Hinv.
  - exists (Kernel.mmu k). simpl. rewrite with_mmu_id.
    split; [done|]. by rewrite Hpt, app_nil_r.
  - destruct (free_if_presented_step (length done) pte k) as (m1 & Hstep & Hinv1).
    { rewrite Hpt. by apply list_lookup_middle. }
    { done. }
    destruct (IH (done ++ [pte]) (Kernel.with_mmu m1 k)) as (m2 & Hloop & Hinv2).
    { by rewrite <- app_assoc. }
    { rewrite length_app. simpl. by rewrite Nat.add_1_r. }
    exists m2. split; [|done].
    simpl. erewrite bind_Ok by exact Hstep. exact Hloop.
Qed.

Lemma freed_all m fid frame :
  freed_upto pid m0 (length pt) m ->
  fid ∈ MMU.busyTable m -> MMU.get m fid = Some frame ->
  Frame.pid frame <> pid.
Proof.
  intros (_ & Hsame & Hlater) Hb Hg Hp.
  destruct (Hsame fid Hb) as [Hb0 Hg0]. rewrite Hg in Hg0. symmetry in Hg0.
  pose proof (Hlater _ _ Hb Hg0 Hp) as Hle.
  destruct (Hframe _ _ Hb0 Hg0 Hp) as (pte & Hpte%js_index_range & _). lia.
Qed.

End Terminate.

(** C2. In a kernel state with the residency bijection for [pid],
    [terminateProcess(pid)] returns; afterwards no busy frame of the MMU has
    its [pid] field equal to [pid], and [pid] is gone from the process map
    (nothing else in the map has changed). *)
Theorem terminate_process_frees_all_frames (k : Kernel.t) (pid : Z) :
  residency_bijection k pid ->
  exists k',
    Kernel.terminateProcess pid k = Ok tt k' /\
    Kernel.processes k' = delete pid (Kernel.processes k) /\
    Kernel.processes k' !! pid = None /\
    (forall fid frame,
        fid ∈ MMU.busyTable (Kernel.mmu k') ->
        MMU.get (Kernel.mmu k') fid = Some frame ->
        Frame.pid frame <> pid).
Proof.
  intros (process & Hproc & Hentry & Hframe).
  destruct (free_loop pid (Process.pageTable process) (Kernel.mmu k)
              Hentry Hframe [] (Process.pageTable process) k)
    as (m' & Hloop & Hinv).
  { done. }
  { split_and!; [done|done|]. intros fid frame Hb Hg Hp.
    destruct (Hframe _ _ Hb Hg Hp) as (pte & Hpte%js_index_range & _).
    simpl. lia. }
  eexists. split_and!.
  - unfold Kernel.terminateProcess.
    erewrite bind_Ok by (by apply get_process_Some).
    erewrite bind_Ok by exact Hloop. reflexivity.
  - done.
  - simpl. apply lookup_delete_eq.
  - simpl. intros fid frame.
    by apply (freed_all pid (Process.pageTable process) (Kernel.mmu k) Hframe).
Qed.

Lemma js_index_pair {A} (a b x : A) (i : Z) :
  js_index [a; b] i = Some x -> (i = 0 /\ x = a) \/ (i = 1 /\ x = b).
Proof.
  intros [Hi Hx]%js_index_Some.
  destruct (Z.to_nat i) as [|[|n]] eqn:E; simpl in Hx; inversion Hx; subst.
  - left. split; [lia|done].
  - right. split; [lia|done].
Qed.

Lemma residency_bijection_tiny : residency_bijection tiny_kernel 1000.
Proof.
  exists tiny_process. split_and!.
  - reflexivity.
  - intros page pte [[-> ->]|[-> ->]]%js_index_pair Hp; [|discriminate].
    exists 3, {| Frame.fid := 3; Frame.busy := true; Frame.pid := 1000;
                 Frame.page := 0 |}.
    split_and!; try reflexivity. simpl. apply list_elem_of_singleton. done.
  - intros fid frame ->%list_elem_of_singleton Hg _.
    vm_compute in Hg. inversion Hg; subst. eexists. split_and!; reflexivity.
Defined.

Lemma terminate_process_frees_all_frames_witness :
  exists k',
    Kernel.terminateProcess 1000 tiny_kernel = Ok tt k' /\
    Kernel.processes k' !! 1000 = None.
Proof.
  destruct (terminate_process_frees_all_frames tiny_kernel 1000
              residency_bijection_tiny) as (k' & Hrun & _ & Hgone & _).
  exists k'. split; [exact Hrun|exact Hgone].
Defined.

(** ** The kernel: page-table entries by handle *)

Lemma write_pte_Ok k h f pte :
  Kernel.pte_at k h = Some pte ->
  exists p,
    Kernel.processes k !! h.1 = Some p /\
    js_index (Process.pageTable p) h.2 = Some pte /\
    Kernel.write_pte h f k =
    Ok tt (Kernel.with_processes
             (<[h.1 := Process.with_pageTable
                         (<[Z.to_nat h.2 := f pte]> (Process.pageTable p)) p]>
                (Kernel.processes k)) k).
Proof.
  unfold Kernel.pte_at, Kernel.write_pte.
  destruct (Kernel.processes k !! h.1) as [p|]; [|done].
  intros Hpte. exists p. by rewrite Hpte.
Qed.


(** Reading an entry after an assignment to the entry [h]. *)
Lemma pte_at_update k (h h' : Kernel.Handle) p pte x :
  Kernel.processes k !! h.1 = Some p ->
  js_index (Process.pageTable p) h.2 = Some pte ->
  Kernel.pte_at
    (Kernel.with_processes
       (<[h.1 := Process.with_pageTable
                   (<[Z.to_nat h.2 := x]> (Process.pageTable p)) p]>
          (Kernel.processes k)) k) h' =
  if decide (h' = h) then Some x else Kernel.pte_at k h'.
Proof.
  intros Hp Hpte. unfold Kernel.pte_at. simpl.
  destruct h as [pid page], h' as [pid' page']. simpl in *.
  destruct (decide (pid' = pid)) as [->|Hpid].
  - rewrite lookup_insert_eq, Hp. simpl.
    destruct (decide (page' = page)) as [->|Hpage].
    + rewrite decide_True by done. by eapply js_index_insert_eq.
    + rewrite decide_False by congruence.
      apply js_index_insert_ne; [|done]. apply js_index_range in Hpte. lia.
  - rewrite lookup_insert_ne by done. rewrite decide_False by congruence. done.
Qed.

Lemma clear_referenced_eq k h p pte :
  Kernel.processes k !! h.1 = Some p ->
  js_index (Process.pageTable p) h.2 = Some pte ->
  clear_referenced k h =
  Kernel.with_processes
    (<[h.1 := Process.with_pageTable
                (<[Z.to_nat h.2 := PageTableEntry.set_referenced false pte]>
                   (Process.pageTable p)) p]> (Kernel.processes k)) k.
Proof. intros Hp Hpte. unfold clear_referenced. by rewrite Hp, Hpte. Qed.

Lemma pte_at_clear_referenced k h h' pte :
  Kernel.pte_at k h = Some pte ->
  Kernel.pte_at (clear_referenced k h) h' =
  if decide (h' = h) then Some (PageTableEntry.set_referenced false pte)
  else Kernel.pte_at k h'.
Proof.
  intros Hpte. pose proof Hpte as Hpte'. unfold Kernel.pte_at in Hpte'.
  destruct (Kernel.processes k !! h.1) as [p|] eqn:Hp; [|done].
  rewrite (clear_referenced_eq _ _ p pte) by done.
  by apply (pte_at_update k h h' p pte).
Qed.

Lemma clear_referenced_mmu k h :
  Kernel.mmu (clear_referenced k h) = Kernel.mmu k /\
  Kernel.accessStats (clear_referenced k h) = Kernel.accessStats k /\
  Kernel.entropy (clear_referenced k h) = Kernel.entropy k /\
  Kernel.replacer (clear_referenced k h) = Kernel.replacer k.
Proof.
  unfold clear_referenced.
  destruct (Kernel.processes k !! h.1) as [p|]; [|done].
  destruct (js_index _ _); done.
Qed.

(** ** The clock replacer: one inspection *)

Lemma clock_loop_unfold fuel busyTable trace hand k :
  Kernel.clock_loop (S fuel) busyTable trace (hand, k) =
  let hand' := succ_rem hand (Z.of_nat (length busyTable)) in
  match index_number busyTable hand ≫= MMU.get (Kernel.mmu k) with
  | None => Throw TypeError (hand', k)
  | Some frame =>
      let h := (Frame.pid frame, Frame.page frame) in
      match Kernel.pte_at k h with
      | None => Throw TypeError (hand', k)
      | Some pte =>
          if PageTableEntry.referenced pte then
            Kernel.clock_loop fuel busyTable (trace ++ [(h, true)])
                              (hand', clear_referenced k h)
          else Ok (h, trace ++ [(h, false)]) (hand', k)
      end
  end.
Proof.
  cbn [Kernel.clock_loop].
  unfold Kernel.in_kernel, zoom, Kernel.resolve, Kernel.get_process.
  unfold bind, gets, modify, ret. cbn [fst snd].
  destruct (index_number busyTable hand ≫= MMU.get (Kernel.mmu k))
    as [frame|] eqn:Hframe; cbn [defined]; unfold throw, ret; [|done].
  unfold Kernel.pte_at. cbn [fst snd].
  destruct (Kernel.processes k !! Frame.pid frame) as [p|] eqn:Hp;
    cbn [defined]; unfold throw, ret; [|done].
  cbn [fst snd].  
  destruct (js_index (Process.pageTable p) (Frame.page frame)) as [pte|] eqn:Hpte;
    cbn [defined]; unfold throw, ret;  [|done].
  destruct (PageTableEntry.referenced pte); cbn [negb]; [|done].
  unfold Kernel.write_pte. cbn [fst snd]. rewrite Hp, Hpte.
  rewrite (clear_referenced_eq k (Frame.pid frame, Frame.page frame) p pte)
    by done.
  done.
Qed.

(** ** Sweeps only clear reference bits *)

#[local] Instance PTE_swept_refl : Reflexive PTE_swept.
Proof. intros a. by left. Qed.

#[local] Instance PTE_swept_trans : Transitive PTE_swept.
Proof.
  intros a b c [->| ->] [->| ->]; [by left|by right|by right|by right].
Qed.

#[local] Instance Process_swept_refl : Reflexive Process_swept.
Proof. intros p. exists (Process.pageTable p). by destruct p. Qed.

#[local] Instance Process_swept_trans : Transitive Process_swept.
Proof.
  intros p1 p2 p3 (pt2 & -> & H12) (pt3 & -> & H23). exists pt3.
  split; [done|]. simpl in H23. by etrans.
Qed.

#[local] Instance Kernel_swept_refl : Reflexive Kernel_swept.
Proof. intros k. split_and!; try done; intros pid; reflexivity. Qed.

#[local] Instance Kernel_swept_trans : Transitive Kernel_swept.
Proof.
  intros k1 k2 k3 (Hm & Hs & He & Hp) (Hm' & Hs' & He' & Hp').
  split_and!; try congruence; intros pid; (etrans; [apply Hp|apply Hp']).
Qed.

Lemma Kernel_swept_pte_at k k' h a :
  Kernel_swept k k' -> Kernel.pte_at k h = Some a ->
  exists b, Kernel.pte_at k' h = Some b /\ PTE_swept a b.
Proof.
  intros (_ & _ & _ & Hp) Ha. unfold Kernel.pte_at in *.
  specialize (Hp h.1).
  destruct (Kernel.processes k !! h.1) as [p|]; [|done].
  inversion Hp as [p0 p' (pt' & -> & Hpt)|]; subst. simpl.
  unfold js_index in *. destruct (0 <=? h.2); [|done].
  by eapply Forall2_lookup_l.
Qed.

Lemma Kernel_swept_pte_at_None k k' h :
  Kernel_swept k k' -> Kernel.pte_at k h = None -> Kernel.pte_at k' h = None.
Proof.
  intros (_ & _ & _ & Hp) Ha. unfold Kernel.pte_at in *.
  specialize (Hp h.1).
  destruct (Kernel.processes k !! h.1) as [p|].
  - inversion Hp as [p0 p' (pt' & -> & Hpt)|]; subst. simpl.
    unfold js_index in *. destruct (0 <=? h.2); [|done].
    apply lookup_ge_None. apply lookup_ge_None in Ha.
    by rewrite <- (Forall2_length _ _ _ Hpt).
  - by inversion Hp.
Qed.

Lemma Kernel_swept_clear_referenced k h :
  Kernel_swept k (clear_referenced k h).
Proof.
  unfold clear_referenced.
  destruct (Kernel.processes k !! h.1) as [p|] eqn:Hp; [|reflexivity].
  destruct (js_index (Process.pageTable p) h.2) as [pte|] eqn:Hpte; [|reflexivity].
  split_and!; try done. intros pid. simpl.
  destruct (decide (pid = h.1)) as [->|Hne].
  - rewrite lookup_insert_eq, Hp. constructor. eexists. split; [done|].
    apply js_index_Some in Hpte as [_ Hpte].
    rewrite <- (list_insert_id (Process.pageTable p) (Z.to_nat h.2) pte) at 1
      by done.
    apply Forall2_insert; [reflexivity|by right].
  - rewrite lookup_insert_ne by done. reflexivity.
Qed.

Lemma PTE_swept_unreferenced a b :
  PTE_swept a b -> PageTableEntry.referenced a = false ->
  PageTableEntry.referenced b = false.
Proof. by intros [->| ->]. Qed.

Lemma PTE_swept_fields a b :
  PTE_swept a b ->
  PageTableEntry.presented b = PageTableEntry.presented a /\
  PageTableEntry.modified b = PageTableEntry.modified a /\
  PageTableEntry.fid b = PageTableEntry.fid a /\
  PageTableEntry.frame b = PageTableEntry.frame a /\
  (PageTableEntry.referenced b = true -> PageTableEntry.referenced a = true).
Proof. by intros [->| ->]. Qed.

(** ** The clock replacer: what a sweep does *)

Lemma clock_loop_effects busyTable fuel :
  forall trace hand k v tr s',
    Kernel.clock_loop fuel busyTable trace (hand, k) = Ok (v, tr) s' ->
    exists tr',
      tr = trace ++ tr' /\
      Kernel_swept k s'.2 /\
      Kernel.replacer s'.2 = Kernel.replacer k /\
      (exists pte, Kernel.pte_at s'.2 v = Some pte /\
                   PageTableEntry.referenced pte = false) /\
      (forall h b, (h, b) ∈ tr' ->
                   exists pte, Kernel.pte_at s'.2 h = Some pte /\
                               PageTableEntry.referenced pte = false) /\
      (forall h, (forall b, (h, b) ∉ tr') -> Kernel.pte_at s'.2 h = Kernel.pte_at k h) /\
      (v, false) ∈ tr' /\
      (forall h b, (h, b) ∈ tr' ->
                   exists fid frame,
                     fid ∈ busyTable /\
                     MMU.get (Kernel.mmu k) fid = Some frame /\
                     h = (Frame.pid frame, Frame.page frame)) /\
      exists hand', s'.1 = succ_rem hand' (Z.of_nat (length busyTable)).
Proof.
  induction fuel as [|fuel IH]; intros trace hand k v tr s' Hrun; [done|].
  rewrite clock_loop_unfold in Hrun. cbv zeta in Hrun.
  destruct (index_number busyTable hand ≫= MMU.get (Kernel.mmu k))
    as [frame|] eqn:Hframe; [|done].
  assert (exists fid, fid ∈ busyTable /\ MMU.get (Kernel.mmu k) fid = Some frame)
    as (fid0 & Hfid0 & Hget0).
  { destruct (index_number busyTable hand) as [fid|] eqn:Hidx; [|done].
    exists fid. split; [|done]. destruct hand as [|z]; [done|].
    apply js_index_Some in Hidx as [_ Hidx]. by eapply list_elem_of_lookup_2. }
  set (h0 := (Frame.pid frame, Frame.page frame)) in *.
  destruct (Kernel.pte_at k h0) as [pte|] eqn:Hpte; [|done].
  destruct (PageTableEntry.referenced pte) eqn:Href.
  - apply IH in Hrun as (tr' & -> & Hsw & Hrep & Hv & Hins & Hout & Hlast & Hprov & Hhand).
    pose proof (clear_referenced_mmu k h0) as (Hmmu0 & _ & _ & Hrep0).
    exists ((h0, true) :: tr'). split_and!.
    + by rewrite <- app_assoc.
    + etrans; [apply Kernel_swept_clear_referenced|done].
    + congruence.
    + done.
    + intros h b [Heq|Hin]%elem_of_cons; [|by eapply Hins].
      inversion Heq; subst.
      destruct (Kernel_swept_pte_at _ _ h0 (PageTableEntry.set_referenced false pte) Hsw)
        as (b & Hb & Hsb).
      { rewrite (pte_at_clear_referenced _ _ _ pte) by done.
        by rewrite decide_True. }
      exists b. split; [done|]. by eapply PTE_swept_unreferenced.
    + intros h Hh. rewrite Hout.
      * rewrite (pte_at_clear_referenced _ _ _ pte) by done.
        rewrite decide_False; [done|]. intros ->.
        apply (Hh true). by left.
      * intros b Hb. apply (Hh b). by right.
    + by right.
    + intros h b [Heq|Hin]%elem_of_cons.
      * inversion Heq; subst. eauto.
      * rewrite <- Hmmu0. by eapply Hprov.
    + done.
  - inversion Hrun; subst. simpl. exists [(h0, false)]. split_and!.
    + done.
    + reflexivity.
    + done.
    + eauto.
    + intros h b [=]%list_elem_of_singleton; subst. eauto.
    + done.
    + by left.
    + intros h b [=]%list_elem_of_singleton; subst. eauto.
    + eauto.
Qed.

(** ** The clock replacer: progress *)

Lemma filter_length_lt {A} (P1 P2 : A -> Prop)
      `{!forall x, Decision (P1 x)} `{!forall x, Decision (P2 x)}
      (l : list A) (x0 : A) :
  (forall x, x ∈ l -> P2 x -> P1 x) ->
  x0 ∈ l -> P1 x0 -> ~ P2 x0 ->
  (length (filter P2 l) < length (filter P1 l))%nat.
Proof.
  intros Himp Hin H1 H2.
  assert (forall l' : list A, (forall x, x ∈ l' -> P2 x -> P1 x) ->
            (length (filter P2 l') <= length (filter P1 l'))%nat) as Hle.
  { induction l' as [|y l' IH]; intros Hl'; [done|].
    rewrite !filter_cons.
    assert (length (filter P2 l') <= length (filter P1 l'))%nat
      by (apply IH; intros x Hx; apply Hl'; by right).
    destruct (decide (P2 y)) as [Hy|Hy].
    - rewrite decide_True by (apply Hl'; [by left|done]). simpl. lia.
    - destruct (decide (P1 y)); simpl; lia. }
  induction l as [|y l IH]; [by apply elem_of_nil in Hin|].
  rewrite !filter_cons.
  assert (length (filter P2 l) <= length (filter P1 l))%nat
    by (apply Hle; intros x Hx; apply Himp; by right).
  apply elem_of_cons in Hin as [->|Hin].
  - rewrite decide_False by done. rewrite decide_True by done. simpl. lia.
  - assert (length (filter P2 l) < length (filter P1 l))%nat
      by (apply IH; [intros x Hx; apply Himp; by right|done]).
    destruct (decide (P2 y)) as [Hy|Hy].
    + rewrite decide_True by (apply Himp; [by left|done]). simpl. lia.
    + destruct (decide (P1 y)); simpl; lia.
Qed.

Lemma resolves_to_clear_referenced k h fid hd pte :
  resolves_to k fid hd pte ->
  exists pte', resolves_to (clear_referenced k h) fid hd pte'.
Proof.
  intros (frame & Hg & -> & Hpte).
  destruct (Kernel_swept_pte_at _ _ _ _ (Kernel_swept_clear_referenced k h) Hpte)
    as (b & Hb & _).
  exists b, frame. split_and!; try done.
  by destruct (clear_referenced_mmu k h) as (-> & _).
Qed.

Lemma frame_referenced_clear k h fid :
  frame_referenced (clear_referenced k h) fid = true ->
  frame_referenced k fid = true.
Proof.
  unfold frame_referenced.
  destruct (clear_referenced_mmu k h) as (-> & _).
  destruct (MMU.get (Kernel.mmu k) fid) as [frame|]; [|done].
  destruct (Kernel.pte_at k (Frame.pid frame, Frame.page frame)) as [a|] eqn:Ha.
  - destruct (Kernel_swept_pte_at _ _ _ _ (Kernel_swept_clear_referenced k h) Ha)
      as (b & -> & Hab).
    by apply PTE_swept_fields.
  - by rewrite (Kernel_swept_pte_at_None _ _ _ (Kernel_swept_clear_referenced k h) Ha).
Qed.

Lemma clock_loop_returns busyTable :
  forall c fuel trace h k,
    (length (filter (fun fid => frame_referenced k fid = true) busyTable) <= c)%nat ->
    (c < fuel)%nat ->
    0 <= h < Z.of_nat (length busyTable) ->
    (forall fid, fid ∈ busyTable -> exists hd pte, resolves_to k fid hd pte) ->
    exists v tr h' k',
      Kernel.clock_loop fuel busyTable trace (Int h, k) =
        Ok (v, trace ++ tr) (Int h', k') /\
      (length tr <= S c)%nat /\
      0 <= h' < Z.of_nat (length busyTable).
Proof.
  induction c as [|c IH]; intros fuel trace h k Hcount Hfuel Hh Hres.
  all: destruct fuel as [|fuel]; [lia|].
  all: rewrite clock_loop_unfold; cbv zeta.
  all: destruct (js_index_in_range busyTable h Hh) as [fid Hfid].
  all: assert (fid ∈ busyTable) as Hin
      by (apply js_index_Some in Hfid as [_ Hfid]; by eapply list_elem_of_lookup_2).
  all: destruct (Hres fid Hin) as (hd & pte & frame & Hg & -> & Hpte).
  all: cbn [index_number]; rewrite Hfid; cbn [mbind option_bind]; rewrite Hg, Hpte.
  all: assert (succ_rem (Int h) (Z.of_nat (length busyTable)) =
               Int (Z.rem (h + 1) (Z.of_nat (length busyTable))) /\
               0 <= Z.rem (h + 1) (Z.of_nat (length busyTable))
                 < Z.of_nat (length busyTable)) as [-> Hh'].
  1, 3: (unfold succ_rem;
         destruct (Z.eqb_spec (Z.of_nat (length busyTable)) 0); [lia|];
         split; [done|]; apply Z.rem_bound_pos; lia).
  all: destruct (PageTableEntry.referenced pte) eqn:Href.
  all: try (exists (Frame.pid frame, Frame.page frame),
              [((Frame.pid frame, Frame.page frame), false)],
              (Z.rem (h + 1) (Z.of_nat (length busyTable))), k;
            split_and!; [done|simpl; lia|lia|lia]).
  all: assert (frame_referenced k fid = true) as Hrf
      by (unfold frame_referenced; by rewrite Hg, Hpte).
  all: assert (frame_referenced
                 (clear_referenced k (Frame.pid frame, Frame.page frame)) fid
               = false) as Hrf'.
  1, 3: (unfold frame_referenced;
         destruct (clear_referenced_mmu k (Frame.pid frame, Frame.page frame))
           as (-> & _);
         rewrite Hg, (pte_at_clear_referenced _ _ _ pte) by done;
         by rewrite decide_True).
  all: pose proof (filter_length_lt
                (fun fid => frame_referenced k fid = true)
                (fun fid => frame_referenced
                   (clear_referenced k (Frame.pid frame, Frame.page frame)) fid
                 = true)
                busyTable fid
                (fun x _ => frame_referenced_clear k _ x) Hin Hrf
                ltac:(congruence)) as Hlt.
  - lia.
  - destruct (IH fuel (trace ++ [((Frame.pid frame, Frame.page frame), true)])
                (Z.rem (h + 1) (Z.of_nat (length busyTable)))
                (clear_referenced k (Frame.pid frame, Frame.page frame)))
      as (v & tr & h' & k' & Hrun & Hlen & Hh'').
    + lia.
    + lia.
    + done.
    + intros fid' Hin'. destruct (Hres fid' Hin') as (hd' & pte' & Hr').
      destruct (resolves_to_clear_referenced k
                  (Frame.pid frame, Frame.page frame) _ _ _ Hr') as (b & Hb).
      eauto.
    + exists v, (((Frame.pid frame, Frame.page frame), true) :: tr), h', k'.
      split_and!; [|simpl; lia|lia|lia].
      rewrite Hrun. by rewrite <- app_assoc.
Qed.

Lemma clock_replace_eq fuel hand k :
  Kernel.clock_replace fuel (hand, k) =
  Kernel.clock_loop fuel (MMU.busyTable (Kernel.mmu k)) []
    (Math_min hand (Z.of_nat (length (MMU.busyTable (Kernel.mmu k))) - 1), k).
Proof. done. Qed.

(** Under the precondition of [replace], a budget of one inspection more than
    there are busy frames is enough for the sweep to return. *)
Lemma clock_replace_returns (k : Kernel.t) (h : Z) (fuel : nat) :
  MMU.busyTable (Kernel.mmu k) <> [] ->
  busy_resolve k ->
  0 <= h ->
  (length (MMU.busyTable (Kernel.mmu k)) < fuel)%nat ->
  exists victim trace h' k',
    Kernel.clock_replace fuel (Int h, k) = Ok (victim, trace) (Int h', k') /\
    (length trace <= S (length (MMU.busyTable (Kernel.mmu k))))%nat /\
    0 <= h' < Z.of_nat (length (MMU.busyTable (Kernel.mmu k))).
Proof.
  intros Hne Hres Hh Hfuel. rewrite clock_replace_eq. cbn [Math_min].
  assert (0 < length (MMU.busyTable (Kernel.mmu k)))%nat as Hlen
    by (destruct (MMU.busyTable (Kernel.mmu k)); [done|simpl; lia]).
  pose proof (length_filter
                (fun fid => frame_referenced k fid = true)
                (MMU.busyTable (Kernel.mmu k))) as Hc.
  destruct (clock_loop_returns (MMU.busyTable (Kernel.mmu k))
              (length (filter (fun fid => frame_referenced k fid = true)
                              (MMU.busyTable (Kernel.mmu k))))
              fuel []
              (Z.min h (Z.of_nat (length (MMU.busyTable (Kernel.mmu k))) - 1)) k)
    as (v & tr & h' & k' & Hrun & Hlen' & Hh'); [lia|lia|lia|done|].
  exists v, tr, h', k'. split_and!; [done|lia|lia|lia].
Qed.

(** C3. When the busy set is not empty and every busy frame resolves to an
    entry of a live process, [replace] of the clock replacer returns an entry
    within [2 * |busy|] inspections (indeed within [|busy| + 1]), from every
    hand position and whatever reference bits are set; the hand is left
    inside the busy table. *)
Theorem clock_replace_within_two_sweeps (k : Kernel.t) (h : Z) (fuel : nat) :
  MMU.busyTable (Kernel.mmu k) <> [] ->
  busy_resolve k ->
  0 <= h ->
  (2 * length (MMU.busyTable (Kernel.mmu k)) <= fuel)%nat ->
  exists victim trace h' k',
    Kernel.clock_replace fuel (Int h, k) = Ok (victim, trace) (Int h', k') /\
    (length trace <= 2 * length (MMU.busyTable (Kernel.mmu k)))%nat /\
    (length trace <= S (length (MMU.busyTable (Kernel.mmu k))))%nat /\
    is_Some (Kernel.pte_at k' victim) /\
    0 <= h' < Z.of_nat (length (MMU.busyTable (Kernel.mmu k))).
Proof.
  intros Hne Hres Hh Hfuel.
  assert (0 < length (MMU.busyTable (Kernel.mmu k)))%nat as Hlen
    by (destruct (MMU.busyTable (Kernel.mmu k)); [done|simpl; lia]).
  destruct (clock_replace_returns k h fuel Hne Hres Hh)
    as (v & tr & h' & k' & Hrun & Hlen' & Hh'); [lia|].
  exists v, tr, h', k'. split_and!; try done; try lia.
  rewrite clock_replace_eq in Hrun.
  apply clock_loop_effects in Hrun as (_ & _ & _ & _ & (pte & Hpte & _) & _).
  simpl in Hpte. by rewrite Hpte.
Qed.

(** C7. Under the same precondition, when [replace] of the clock replacer
    returns: every entry it inspected, so every one it found with
    [referenced = true], has [referenced = false]; the entry it returns has
    [referenced = false]; an entry it did not inspect is as before; in no
    entry has [presented], [modified] or the frame number changed, and the
    MMU with its frames is as before. *)
Theorem clock_replace_clears_reference_bits (k : Kernel.t) (h : Z) (fuel : nat) :
  MMU.busyTable (Kernel.mmu k) <> [] ->
  busy_resolve k ->
  0 <= h ->
  (2 * length (MMU.busyTable (Kernel.mmu k)) <= fuel)%nat ->
  exists victim trace h' k',
    Kernel.clock_replace fuel (Int h, k) = Ok (victim, trace) (Int h', k') /\
    (forall hd, (hd, true) ∈ trace ->
                exists pte, Kernel.pte_at k' hd = Some pte /\
                            PageTableEntry.referenced pte = false) /\
    (exists pte, Kernel.pte_at k' victim = Some pte /\
                 PageTableEntry.referenced pte = false) /\
    (forall hd, (forall b, (hd, b) ∉ trace) ->
                Kernel.pte_at k' hd = Kernel.pte_at k hd) /\
    (forall hd a, Kernel.pte_at k hd = Some a ->
                  exists b, Kernel.pte_at k' hd = Some b /\
                    PageTableEntry.presented b = PageTableEntry.presented a /\
                    PageTableEntry.modified b = PageTableEntry.modified a /\
                    PageTableEntry.fid b = PageTableEntry.fid a /\
                    PageTableEntry.frame b = PageTableEntry.frame a) /\
    Kernel.mmu k' = Kernel.mmu k /\
    Kernel_swept k k'.
Proof.
  intros Hne Hres Hh Hfuel.
  assert (0 < length (MMU.busyTable (Kernel.mmu k)))%nat as Hlen
    by (destruct (MMU.busyTable (Kernel.mmu k)); [done|simpl; lia]).
  destruct (clock_replace_returns k h fuel Hne Hres Hh)
    as (v & tr & h' & k' & Hrun & _ & _); [lia|].
  exists v, tr, h', k'. split; [done|].
  rewrite clock_replace_eq in Hrun.
  apply clock_loop_effects in Hrun as (tr' & Htr & Hsw & _ & Hv & Hins & Hout & _).
  simpl in *. subst tr. split_and!; try done.
  - intros hd Hin. by eapply Hins.
  - intros hd a Ha.
    destruct (Kernel_swept_pte_at _ _ _ _ Hsw Ha) as (b & Hb & Hab).
    exists b. split; [done|]. apply PTE_swept_fields in Hab. tauto.
  - apply Hsw.
Qed.

Lemma busy_resolve_tiny : busy_resolve tiny_kernel.
Proof.
  intros fid ->%list_elem_of_singleton.
  eexists (1000, 0), _, _. split_and!; reflexivity.
Defined.

Lemma clock_replace_within_two_sweeps_witness :
  exists victim trace h' k',
    Kernel.clock_replace 2 (Int 0, tiny_kernel) =
      Ok (victim, trace) (Int h', k') /\
    (length trace <= 2)%nat.
Proof.
  destruct (clock_replace_within_two_sweeps tiny_kernel 0 2
              ltac:(discriminate) busy_resolve_tiny ltac:(lia)
              ltac:(simpl; lia))
    as (v & tr & h' & k' & Hrun & Hlen & _).
  exists v, tr, h', k'. split; [exact Hrun|exact Hlen].
Defined.

Lemma clock_replace_clears_reference_bits_witness :
  exists victim trace h' k',
    Kernel.clock_replace 2 (Int 0, tiny_kernel) =
      Ok (victim, trace) (Int h', k') /\
    Kernel.mmu k' = tiny_mmu.
Proof.
  destruct (clock_replace_clears_reference_bits tiny_kernel 0 2
              ltac:(discriminate) busy_resolve_tiny ltac:(lia)
              ltac:(simpl; lia))
    as (v & tr & h' & k' & Hrun & _ & _ & _ & _ & Hmmu & _).
  exists v, tr, h', k'. split; [exact Hrun|exact Hmmu].
Defined.

(** The second scenario of the sweep: two resident pages, both referenced,
    hand at [0]; the third inspection returns page [0]. *)
Example clock_second_chance :
  let p :=
    {| Process.pid := 1000;
       Process.pageTable :=
         [ {| PageTableEntry.presented := true; PageTableEntry.referenced := true;
              PageTableEntry.modified := false; PageTableEntry.fid := 0;
              PageTableEntry.frame := Some 1 |};
           {| PageTableEntry.presented := true; PageTableEntry.referenced := true;
              PageTableEntry.modified := false; PageTableEntry.fid := 0;
              PageTableEntry.frame := Some 0 |};
           PageTableEntry.new ];
       Process.ttl := 9; Process.idleSet := [1; 2]; Process.workingSet := [0];
       Process.workingSetTtl := 5; Process.counter := 0 |} in
  let k :=
    {| Kernel.replacer := Kernel.ClockReplacer (Int 0);
       Kernel.processes := {[ 1000 := p ]};
       Kernel.mmu :=
         {| MMU.frameTable :=
              [ {| Frame.fid := 0; Frame.busy := true; Frame.pid := 1000;
                   Frame.page := 1 |};
                {| Frame.fid := 1; Frame.busy := true; Frame.pid := 1000;
                   Frame.page := 0 |} ];
            MMU.busyTable := [1; 0];
            MMU.freeTable := [] |};
       Kernel.accessStats :=
         {| Kernel.total := 0; Kernel.faults := 0; Kernel.replaced := 0 |};
       Kernel.entropy := halves |} in
  exists k',
    Kernel.clock_replace 4 (Int 0, k) =
    Ok ((1000, 0), [((1000, 0), true); ((1000, 1), true); ((1000, 0), false)])
       (Int 1, k').
Proof. eexists. vm_compute. reflexivity. Qed.

(** ** The kernel invariant *)

Lemma Kernel_wf_busy_resolve k : Kernel_wf k -> busy_resolve k.
Proof.
  intros Hwf fid Hin.
  destruct (MMU_wf_get _ fid (kwf_mmu k Hwf)) as [frame Hg]; [tauto|].
  destruct (kwf_busy k Hwf fid frame Hin Hg) as (pte & Hpte & _).
  exists (Frame.pid frame, Frame.page frame), pte, frame. done.
Qed.

Lemma Kernel_wf_full k :
  Kernel_wf k -> MMU.freeTable (Kernel.mmu k) = [] ->
  MMU.busyTable (Kernel.mmu k) <> [].
Proof.
  intros Hwf Hfree Hbusy.
  pose proof (kwf_frames k Hwf) as Hne.
  destruct (wf_cover _ (kwf_mmu k Hwf) 0) as [H|H].
  - destruct (MMU.frameTable (Kernel.mmu k)); [done|simpl; lia].
  - rewrite Hbusy in H. by apply elem_of_nil in H.
  - rewrite Hfree in H. by apply elem_of_nil in H.
Qed.

Lemma swept_dom (ps ps' : gmap Z Process.t) :
  (forall pid, option_Forall2 Process_swept (ps !! pid) (ps' !! pid)) ->
  dom ps' = dom ps.
Proof.
  intros H. apply set_eq. intros pid. rewrite !elem_of_dom.
  specialize (H pid). inversion H; split; intros [? ?]; eauto; congruence.
Qed.

(** What an assignment to an entry leaves alone. *)
Lemma write_pte_spec k h f a :
  Kernel.pte_at k h = Some a ->
  exists k',
    Kernel.write_pte h f k = Ok tt k' /\
    Kernel.mmu k' = Kernel.mmu k /\
    Kernel.replacer k' = Kernel.replacer k /\
    Kernel.entropy k' = Kernel.entropy k /\
    Kernel.accessStats k' = Kernel.accessStats k /\
    dom (Kernel.processes k') = dom (Kernel.processes k) /\
    (forall h', Kernel.pte_at k' h' =
                if decide (h' = h) then Some (f a) else Kernel.pte_at k h').
Proof.
  intros Ha. destruct (write_pte_Ok k h f a Ha) as (p & Hp & Hpte & Hrun).
  eexists. split; [exact Hrun|]. split_and!; try done.
  - simpl. apply dom_insert_lookup_L. by rewrite Hp.
  - intros h'. by apply (pte_at_update k h h' p a).
Qed.

(** ** The replacers under the invariant *)

Lemma replace_spec fuel k :
  Kernel_wf k ->
  has_replace (Kernel.replacer k) ->
  MMU.busyTable (Kernel.mmu k) <> [] ->
  (length (MMU.busyTable (Kernel.mmu k)) < fuel)%nat ->
  exists v k' fid frame,
    Kernel.replace fuel k = Ok (Some v) k' /\
    fid ∈ MMU.busyTable (Kernel.mmu k) /\
    MMU.get (Kernel.mmu k) fid = Some frame /\
    v = (Frame.pid frame, Frame.page frame) /\
    Kernel.mmu k' = Kernel.mmu k /\
    Kernel.accessStats k' = Kernel.accessStats k /\
    dom (Kernel.processes k') = dom (Kernel.processes k) /\
    (forall h a, Kernel.pte_at k h = Some a ->
                 exists b, Kernel.pte_at k' h = Some b /\ PTE_swept a b) /\
    hand_ok (Kernel.replacer k') /\
    Util.draws (Kernel.entropy k') = Util.draws (Kernel.entropy k).
Proof.
  intros Hwf Hhas Hne Hfuel. unfold Kernel.replace.
  pose proof (kwf_hand k Hwf) as Hhand.
  destruct (Kernel.replacer k) as [hand| | |] eqn:Hrep; [| |done|done].
  - destruct Hhand as (h & -> & Hh).
    destruct (clock_replace_returns k h fuel Hne (Kernel_wf_busy_resolve k Hwf) Hh Hfuel)
      as (v & tr & h' & k' & Hrun & _ & Hh').
    pose proof Hrun as Heff. rewrite clock_replace_eq in Heff.
    apply clock_loop_effects in Heff
      as (tr' & _ & Hsw & _ & _ & _ & _ & Hlast & Hprov & _).
    destruct (Hprov _ _ Hlast) as (fid & frame & Hfid & Hget & Hv).
    exists v, (Kernel.with_replacer (Kernel.ClockReplacer (Int h')) k'), fid, frame.
    simpl in Hsw. split_and!; try done.
    + unfold zoom, bind. rewrite Hrun. done.
    + apply Hsw.
    + apply Hsw.
    + simpl. apply swept_dom, Hsw.
    + intros hd a Ha. by apply (Kernel_swept_pte_at k k').
    + simpl. exists h'. split; [done|lia].
    + simpl. destruct Hsw as (_ & _ & -> & _). done.
  - unfold Kernel.random_replace.
    destruct (choose_nonempty (MMU.busyTable (Kernel.mmu k)) (Kernel.entropy k))
      as (fid & Hch & Hin); [apply (kwf_rng k Hwf)|done|].
    destruct (MMU_wf_get _ fid (kwf_mmu k Hwf)) as [frame Hg]; [tauto|].
    destruct (kwf_busy k Hwf fid frame Hin Hg) as (pte & Hpte & _).
    exists (Frame.pid frame, Frame.page frame),
           (Kernel.with_entropy (Util.choose (MMU.busyTable (Kernel.mmu k))
                                             (Kernel.entropy k)).2 k),
           fid, frame.
    split_and!; try done.
    + unfold bind, gets, Kernel.on_rng.
      destruct (Util.choose (MMU.busyTable (Kernel.mmu k)) (Kernel.entropy k))
        as [o g'] eqn:Hchoose. simpl in Hch. subst o.
      unfold Kernel.resolve, bind, Kernel.get_process. simpl.
      rewrite Hg. simpl.
      unfold Kernel.pte_at in Hpte. simpl in Hpte.
      destruct (Kernel.processes k !! Frame.pid frame) as [p|]; [|done].
      simpl. unfold ret. by rewrite Hpte.
    + intros h a Ha. exists a. split; [done|by left].
    + simpl. by rewrite Hrep.
Qed.

(** ** The page-fault handler under the invariant *)

Lemma Kernel_wf_stats k s : Kernel_wf k -> Kernel_wf (Kernel.with_accessStats s k).
Proof. intros [? ? ? ? ? ?]. by split. Qed.

(** Without a replacer object and without a free frame, the handler stops at
    the call of [replace]: both counters have been incremented. *)
Lemma handlePageFault_no_replace fuel pid page k pte :
  ~ has_replace (Kernel.replacer k) ->
  Kernel.pte_at k (pid, page) = Some pte ->
  MMU.freeTable (Kernel.mmu k) = [] ->
  Kernel.handlePageFault fuel pid page k =
  Throw TypeError
        (Kernel.with_accessStats
           (Kernel.count_replaced (Kernel.count_fault (Kernel.accessStats k))) k).
Proof.
  intros Hno Hpte Hfree. unfold Kernel.handlePageFault.
  erewrite bind_Ok by reflexivity.
  assert (exists p, Kernel.processes k !! pid = Some p) as [p Hp].
  { unfold Kernel.pte_at in Hpte. simpl in Hpte.
    destruct (Kernel.processes k !! pid); [eauto|done]. }
  erewrite bind_Ok by (apply get_process_Some; exact Hp).
  erewrite bind_Ok by (apply on_mmu_Ok; by apply alloc_empty).
  change (-1 =? -1) with true. cbv iota.
  rewrite with_mmu_id.
  erewrite bind_Throw; [reflexivity|].
  erewrite bind_Ok by reflexivity.
  erewrite bind_Throw; [reflexivity|].
  unfold Kernel.replace. simpl.
  destruct (Kernel.replacer k) eqn:Hrep; simpl in Hno; try tauto; by destruct k.
Qed.

Lemma handlePageFault_spec fuel pid page k pte :
  Kernel_wf k ->
  has_replace (Kernel.replacer k) \/ MMU.freeTable (Kernel.mmu k) <> [] ->
  Kernel.pte_at k (pid, page) = Some pte ->
  PageTableEntry.presented pte = false ->
  (length (MMU.busyTable (Kernel.mmu k)) < fuel)%nat ->
  exists k',
    Kernel.handlePageFault fuel pid page k = Ok tt k' /\
    Kernel_wf k' /\
    dom (Kernel.processes k') = dom (Kernel.processes k).
Proof.
  intros Hwf Hhas Hpte Hpres Hfuel. unfold Kernel.handlePageFault.
  erewrite bind_Ok by reflexivity.
  set (k1 := Kernel.with_accessStats _ k).
  assert (exists p, Kernel.processes k !! pid = Some p) as [p Hp].
  { unfold Kernel.pte_at in Hpte. simpl in Hpte.
    destruct (Kernel.processes k !! pid); [eauto|done]. }
  erewrite bind_Ok by (apply get_process_Some; exact Hp).
  destruct (MMU.freeTable (Kernel.mmu k)) as [|fid rest _] eqn:Hfree using rev_ind.
  - (* no free frame: a victim is replaced *)
    erewrite bind_Ok by (apply on_mmu_Ok; by apply alloc_empty).
    change (-1 =? -1) with true. cbv iota.
    rewrite with_mmu_id.
    set (k3 := Kernel.with_accessStats
                 (Kernel.count_replaced (Kernel.accessStats k1)) k1).
    assert (Kernel_wf k3) as Hwf3 by (by do 2 apply Kernel_wf_stats).
    destruct Hhas as [Hhas|Hf]; [|done].
    destruct (replace_spec fuel k3 Hwf3 Hhas) as
      (v & k4 & fidv & framev & Hrun & Hin & Hget & Hv & Hmmu & _ & Hdom & Hsw & Hh & Hd);
      [by apply (Kernel_wf_full k)|done|].
    change (Kernel.mmu k3) with (Kernel.mmu k) in *.
    change (Kernel.processes k3) with (Kernel.processes k) in *.
    change (Kernel.entropy k3) with (Kernel.entropy k) in *.
    assert (forall h a, Kernel.pte_at k h = Some a ->
              exists b, Kernel.pte_at k4 h = Some b /\ PTE_swept a b) as Hsw'
      by (intros h a Ha; by apply Hsw).
    clear Hsw.
    destruct (kwf_busy k Hwf fidv framev Hin Hget) as (av & Hav & Havp & Havf).
    rewrite <- Hv in Hav.
    destruct (Hsw' v av Hav) as (bv & Hbv & Habv).
    apply PTE_swept_fields in Habv as (Hbvp & _ & _ & Hbvf & _).
    destruct (Hsw' _ _ Hpte) as (b0 & Hb0 & Hab0).
    apply PTE_swept_fields in Hab0 as (Hb0p & _).
    assert (v <> (pid, page)) as Hvne by (intros ->; congruence).
    set (m5 := MMU.with_frameTable
                 (<[Z.to_nat fidv := Frame.assign true pid page framev]>
                    (MMU.frameTable (Kernel.mmu k))) (Kernel.mmu k)).
    assert (MMU.realloc fidv pid page (Kernel.mmu k4) = Ok true m5) as Hrealloc
      by (rewrite Hmmu; by apply realloc_ok).
    destruct (write_pte_spec (Kernel.with_mmu m5 k4) v
                (PageTableEntry.set_presented false) bv Hbv)
      as (k6 & Hrun6 & Hmmu6 & Hrep6 & Hent6 & _ & Hdom6 & Hpte6).
    destruct (write_pte_spec k6 (pid, page)
                (fun e => PageTableEntry.set_frame (Some fidv)
                            (PageTableEntry.set_presented true e)) b0)
      as (k7 & Hrun7 & Hmmu7 & Hrep7 & Hent7 & _ & Hdom7 & Hpte7).
    { rewrite Hpte6. by rewrite decide_False. }
    exists k7. split_and!.
    + match goal with |- bind ?m ?f ?s = _ =>
        assert (m s = Ok (Some fidv) k6) as Hinner end.
      { erewrite bind_Ok by reflexivity. fold k3.
        erewrite bind_Ok by exact Hrun.
        erewrite bind_Ok by reflexivity.
        erewrite bind_Ok by (by rewrite Hbv).
        rewrite Hbvf, Havf.
        erewrite bind_Ok by reflexivity.
        erewrite bind_Ok by (apply on_mmu_Ok; exact Hrealloc).
        erewrite bind_Ok by exact Hrun6. reflexivity. }
      erewrite bind_Ok by exact Hinner. exact Hrun7.
    + simpl in *. split.
      * rewrite Hmmu7, Hmmu6. simpl.
        eapply MMU_wf_realloc; [|exact Hrealloc]. rewrite Hmmu. apply Hwf.
      * rewrite Hmmu7, Hmmu6. simpl.
        intros Hnil. apply (kwf_frames k Hwf).
        apply (f_equal length) in Hnil. rewrite length_insert in Hnil.
        by apply nil_length_inv.
      * rewrite Hmmu7, Hmmu6. simpl.
        intros fid' frame' Hin' Hget'. rewrite Hpte7.
        unfold MMU.get in Hget'. simpl in Hget'.
        destruct (decide (fid' = fidv)) as [->|Hne].
        -- erewrite js_index_insert_eq in Hget' by exact Hget.
           inversion Hget'; subst frame'. simpl.
           rewrite decide_True by done. eauto.
        -- rewrite js_index_insert_ne in Hget'
             by (apply js_index_range in Hget; lia || done).
           destruct (kwf_busy k Hwf fid' frame' Hin' Hget')
             as (a' & Ha' & Ha'p & Ha'f).
           destruct (Hsw' _ _ Ha') as (b' & Hb' & Hab').
           apply PTE_swept_fields in Hab' as (Hb'p & _ & _ & Hb'f & _).
           rewrite decide_False by (intros Heq; rewrite Heq in Ha'; congruence).
           rewrite Hpte6.
           rewrite decide_False
             by (intros Heq; rewrite Heq in Ha'; congruence).
           exists b'. split_and!; [exact Hb'|congruence|congruence].
      * by rewrite Hrep7, Hrep6.
      * rewrite Hent7, Hent6. simpl. intros i. rewrite Hd. apply (kwf_rng k Hwf).
      * rewrite Hmmu7, Hmmu6. simpl.
        eapply (MMU_clean_realloc_busy (Kernel.mmu k));
          [apply Hwf|apply Hwf|exact Hin|]. rewrite <- Hmmu. exact Hrealloc.
    + rewrite Hdom7, Hdom6. simpl. by rewrite Hdom.
  - (* a free frame is bound *)
    assert (fid ∈ MMU.freeTable (Kernel.mmu k)) as Hfin
      by (rewrite Hfree, elem_of_app, list_elem_of_singleton; tauto).
    destruct (MMU_wf_get _ fid (kwf_mmu k Hwf)) as [frame Hget]; [tauto|].
    pose proof (wf_free_range _ (kwf_mmu k Hwf) fid Hfin) as Hrange.
    pose proof (alloc_pop (Kernel.mmu k) pid page rest fid frame Hfree Hget)
      as Halloc.
    set (m1 := {| MMU.frameTable := _; MMU.busyTable := _;
                  MMU.freeTable := rest |}) in Halloc.
    erewrite bind_Ok by (apply on_mmu_Ok; exact Halloc).
    destruct (Z.eqb_spec fid (-1)) as [?|_]; [lia|].
    erewrite bind_Ok by reflexivity.
    destruct (write_pte_spec (Kernel.with_mmu m1 k1) (pid, page)
                (fun e => PageTableEntry.set_frame (Some fid)
                            (PageTableEntry.set_presented true e)) pte Hpte)
      as (k7 & Hrun7 & Hmmu7 & Hrep7 & Hent7 & _ & Hdom7 & Hpte7).
    exists k7. split_and!; [exact Hrun7| |by rewrite Hdom7].
    simpl in *. split.
    + rewrite Hmmu7. eapply MMU_wf_alloc; [|exact Halloc]. apply Hwf.
    + rewrite Hmmu7. simpl. intros Hnil. apply (kwf_frames k Hwf).
      apply (f_equal length) in Hnil. rewrite length_insert in Hnil.
      by apply nil_length_inv.
    + rewrite Hmmu7. simpl. intros fid' frame' Hin' Hget'. rewrite Hpte7.
      unfold MMU.get in Hget'. simpl in Hget'.
      destruct (decide (fid' = fid)) as [->|Hne].
      * erewrite js_index_insert_eq in Hget' by exact Hget.
        inversion Hget'; subst frame'. simpl.
        rewrite decide_True by done. eauto.
      * rewrite js_index_insert_ne in Hget' by (lia || done).
        apply elem_of_Set_add in Hin' as [?|Hin']; [done|].
        destruct (kwf_busy k Hwf fid' frame' Hin' Hget')
          as (a' & Ha' & Ha'p & Ha'f).
        rewrite decide_False by (intros Heq; rewrite Heq in Ha'; congruence).
        eauto.
    + rewrite Hrep7. apply Hwf.
    + rewrite Hent7. apply Hwf.
    + rewrite Hmmu7. simpl.
      eapply MMU_clean_alloc; [| |exact Halloc]; apply Hwf.
Qed.

(** ** Termination of a process under the invariant *)

Lemma free_if_presented_spec pte k :
  MMU_wf (Kernel.mmu k) ->
  exists m',
    Kernel.free_if_presented pte k = Ok tt (Kernel.with_mmu m' k) /\
    MMU_wf m' /\
    length (MMU.frameTable m') = length (MMU.frameTable (Kernel.mmu k)) /\
    (forall fid, fid ∈ MMU.busyTable m' ->
       fid ∈ MMU.busyTable (Kernel.mmu k) /\
       MMU.get m' fid = MMU.get (Kernel.mmu k) fid /\
       ~ (PageTableEntry.presented pte = true /\
          PageTableEntry.frame pte = Some fid)).
Proof.
  intros Hwf. unfold Kernel.free_if_presented, Kernel.free_frame_of.
  destruct (PageTableEntry.presented pte) eqn:Hpres;
    [destruct (PageTableEntry.frame pte) as [fid|] eqn:Hfr|].
  - destruct (decide (fid ∈ MMU.busyTable (Kernel.mmu k))) as [Hb|Hnb].
    + destruct (MMU_wf_get _ fid Hwf) as [frame Hget]; [tauto|].
      pose proof (free_busy _ _ _ Hb Hget) as Hfree.
      eexists. split; [|split_and!].
      * erewrite bind_Ok by (apply on_mmu_Ok; exact Hfree). reflexivity.
      * by eapply MMU_wf_free.
      * simpl. by rewrite length_insert.
      * simpl. intros fid' [Hne Hb']%elem_of_Set_delete. split_and!; [done| |].
        -- unfold MMU.get. simpl. apply js_index_insert_ne; [|done].
           apply js_index_range in Hget. lia.
        -- intros [_ [=]]. done.
    + exists (Kernel.mmu k). split_and!; try done.
      * erewrite bind_Ok by (apply on_mmu_Ok; by apply free_not_busy).
        by rewrite !with_mmu_id.
      * intros fid' Hb'. split_and!; try done. intros [_ [=]]. congruence.
  - exists (Kernel.mmu k). split_and!; try done.
    + by rewrite with_mmu_id.
    + intros fid' Hb'. split_and!; try done. intros [_ [=]].
  - exists (Kernel.mmu k). split_and!; try done.
    + by rewrite with_mmu_id.
    + intros fid' Hb'. split_and!; try done. intros [[=] _].
Qed.

Lemma free_loop_spec pts : forall k,
  MMU_wf (Kernel.mmu k) ->
  exists m',
    for_of pts Kernel.free_if_presented k = Ok tt (Kernel.with_mmu m' k) /\
    MMU_wf m' /\
    length (MMU.frameTable m') = length (MMU.frameTable (Kernel.mmu k)) /\
    (forall fid, fid ∈ MMU.busyTable m' ->
       fid ∈ MMU.busyTable (Kernel.mmu k) /\
       MMU.get m' fid = MMU.get (Kernel.mmu k) fid /\
       ~ exists pte, pte ∈ pts /\ PageTableEntry.presented pte = true /\
                     PageTableEntry.frame pte = Some fid).
Proof.
  induction pts as [|pte pts IH]; intros k Hwf.
  - exists (Kernel.mmu k). split_and!; try done.
    + simpl. by rewrite with_mmu_id.
    + intros fid Hb. split_and!; try done.
      intros (pte & Hin & _). by apply elem_of_nil in Hin.
  - destruct (free_if_presented_spec pte k Hwf) as (m1 & Hstep & Hwf1 & Hlen1 & Hb1).
    destruct (IH (Kernel.with_mmu m1 k) Hwf1) as (m2 & Hloop & Hwf2 & Hlen2 & Hb2).
    exists m2. split_and!; try done.
    + simpl. erewrite bind_Ok by exact Hstep. exact Hloop.
    + simpl in Hlen2. congruence.
    + intros fid Hb. destruct (Hb2 fid Hb) as (Hb' & Hg' & Hn').
      destruct (Hb1 fid Hb') as (Hb'' & Hg'' & Hn''). simpl in *.
      split_and!; [done|congruence|].
      intros (pte' & [->|Hin]%elem_of_cons & Hp & Hf); [tauto|].
      apply Hn'. eauto.
Qed.

Lemma free_if_presented_clean pte k k' :
  MMU_wf (Kernel.mmu k) -> MMU_clean (Kernel.mmu k) ->
  Kernel.free_if_presented pte k = Ok tt k' ->
  MMU_wf (Kernel.mmu k') /\ MMU_clean (Kernel.mmu k').
Proof.
  intros Hwf Hc. unfold Kernel.free_if_presented, Kernel.free_frame_of.
  destruct (PageTableEntry.presented pte); [|by intros [= <-]].
  destruct (PageTableEntry.frame pte) as [fid|]; [|by intros [= <-]].
  intros (b & k1 & Hfree & [= <-])%bind_Ok_inv.
  unfold Kernel.on_mmu, zoom in Hfree.
  destruct (MMU.free fid (Kernel.mmu k)) as [b' m'| |] eqn:Hf; [|done|done].
  inversion Hfree; subst. simpl.
  split; [by eapply MMU_wf_free|by eapply MMU_clean_free].
Qed.

Lemma free_loop_clean pts : forall k k',
  MMU_wf (Kernel.mmu k) -> MMU_clean (Kernel.mmu k) ->
  for_of pts Kernel.free_if_presented k = Ok tt k' ->
  MMU_clean (Kernel.mmu k').
Proof.
  induction pts as [|pte pts IH]; intros k k' Hwf Hc Hrun.
  - by inversion Hrun; subst.
  - simpl in Hrun. apply bind_Ok_inv in Hrun as ([] & k1 & Hstep & Hrun).
    destruct (free_if_presented_clean pte k k1 Hwf Hc Hstep) as [Hwf1 Hc1].
    by eapply IH.
Qed.

Lemma pte_at_elem_of k pid page pte p :
  Kernel.processes k !! pid = Some p ->
  Kernel.pte_at k (pid, page) = Some pte ->
  pte ∈ Process.pageTable p.
Proof.
  intros Hp. unfold Kernel.pte_at. simpl. rewrite Hp.
  intros [_ H]%js_index_Some. by eapply list_elem_of_lookup_2.
Qed.

Lemma terminateProcess_spec k pid p :
  Kernel_wf k ->
  Kernel.processes k !! pid = Some p ->
  exists k',
    Kernel.terminateProcess pid k = Ok tt k' /\
    Kernel_wf k' /\
    Kernel.processes k' = delete pid (Kernel.processes k).
Proof.
  intros Hwf Hp. unfold Kernel.terminateProcess.
  erewrite bind_Ok by (by apply get_process_Some).
  destruct (free_loop_spec (Process.pageTable p) k (kwf_mmu k Hwf))
    as (m' & Hloop & Hwf' & Hlen & Hb).
  erewrite bind_Ok by exact Hloop.
  eexists. split; [reflexivity|]. split; [|done].
  split; simpl.
  - done.
  - intros Hnil. apply (kwf_frames k Hwf). apply nil_length_inv.
    by rewrite <- Hlen, Hnil.
  - intros fid frame Hin Hget.
    destruct (Hb fid Hin) as (Hin0 & Hget0 & Hnot). rewrite Hget in Hget0.
    destruct (kwf_busy k Hwf fid frame Hin0 (eq_sym Hget0))
      as (pte & Hpte & Hpres & Hfr).
    exists pte. split_and!; try done.
    unfold Kernel.pte_at in *. simpl in *.
    destruct (decide (Frame.pid frame = pid)) as [Heq|Hne].
    + exfalso. apply Hnot. exists pte. split_and!; try done.
      apply (pte_at_elem_of k pid (Frame.page frame)); [done|].
      unfold Kernel.pte_at. simpl. by rewrite <- Heq.
    + by rewrite lookup_delete_ne.
  - apply Hwf.
  - apply Hwf.
  - apply (free_loop_clean _ _ _ (kwf_mmu k Hwf) (kwf_clean k Hwf)) in Hloop.
    exact Hloop.
Qed.

(** ** System calls under the invariant *)

Lemma with_pageTable_id p :
  Process.with_pageTable (Process.pageTable p) p = p.
Proof. by destruct p. Qed.

Lemma access_process_state_id k pid p :
  Kernel.processes k !! pid = Some p ->
  Kernel.with_mmu (Kernel.mmu k)
    (Kernel.with_processes
       (<[pid := Process.with_pageTable (Process.pageTable p) p]>
          (Kernel.processes k)) k) = k.
Proof.
  intros Hp. rewrite with_pageTable_id, insert_id by done. by destruct k.
Qed.

(** The [try] block on an [AccessMemory] syscall, case by case. *)
Lemma dispatch_access k pid page modify_ :
  Kernel.dispatch (Syscall.AccessMemory pid page modify_) k =
  match page ≫= (fun z => Kernel.pte_at k (pid, z) ≫= fun pte => Some (z, pte)) with
  | None => Throw TypeError k
  | Some (z, pte) =>
      if PageTableEntry.presented pte then
        match Kernel.processes k !! pid with
        | Some p =>
            Ok tt (Kernel.with_processes
                     (<[pid := Process.with_pageTable
                                 (<[Z.to_nat z :=
                                      (if modify_
                                       then PageTableEntry.set_modified true
                                       else id)
                                        (PageTableEntry.set_referenced true pte)]>
                                    (Process.pageTable p)) p]>
                        (Kernel.processes k)) k)
        | None => Throw TypeError k
        end
      else Throw (PageFault pid z) k
  end.
Proof.
  unfold Kernel.dispatch, Kernel.pte_at. simpl.
  destruct (Kernel.processes k !! pid) as [p|] eqn:Hp.
  - erewrite bind_Ok by (by apply get_process_Some).
    unfold Kernel.access_process, zoom, MMU.access. simpl.
    destruct page as [z|]; simpl;
      [|by rewrite access_process_state_id].
    destruct (js_index (Process.pageTable p) z) as [pte|]; simpl;
      [|by rewrite access_process_state_id].
    destruct (PageTableEntry.presented pte); simpl.
    + destruct modify_; by destruct k.
    + by rewrite access_process_state_id.
  - erewrite bind_Throw by (by apply get_process_None).
    destruct page as [z|]; done.
Qed.

Lemma has_replace_dec r : {has_replace r} + {~ has_replace r}.
Proof. destruct r; simpl; auto. Qed.

(** A system call under the invariant returns, unless the page-fault handler
    needs a victim and the value of [#replacer] has no method [replace]. *)
Lemma syscall_cases fuel sc k :
  Kernel_wf k ->
  (length (MMU.busyTable (Kernel.mmu k)) < fuel)%nat ->
  (exists k',
      Kernel.syscall fuel sc k = Ok tt k' /\
      Kernel_wf k' /\
      dom (Kernel.processes k') ⊆ dom (Kernel.processes k)) \/
  (~ has_replace (Kernel.replacer k) /\
   MMU.freeTable (Kernel.mmu k) = [] /\
   (exists pid page, Kernel.dispatch sc k = Throw (PageFault pid page) k) /\
   Kernel.syscall fuel sc k =
   Throw TypeError
         (Kernel.with_accessStats
            (Kernel.count_replaced (Kernel.count_fault (Kernel.accessStats k)))
            k)).
Proof.
  intros Hwf Hfuel. unfold Kernel.syscall, try_catch.
  destruct sc as [pid page modify_|pid].
  - rewrite dispatch_access.
    destruct page as [z|]; simpl; [|left; eauto].
    destruct (Kernel.pte_at k (pid, z)) as [pte|] eqn:Hpte; simpl;
      [|left; eauto].
    destruct (PageTableEntry.presented pte) eqn:Hpres.
    + pose proof Hpte as Hpte'. unfold Kernel.pte_at in Hpte'. simpl in Hpte'.
      destruct (Kernel.processes k !! pid) as [p|] eqn:Hp; [|done].
      left. eexists. split; [reflexivity|]. split.
      * split; simpl; try apply Hwf.
        intros fid frame Hin Hget.
        destruct (kwf_busy k Hwf fid frame Hin Hget) as (a & Ha & Hap & Haf).
        rewrite (pte_at_update k (pid, z) _ p pte) by done.
        case_decide as Heq; [|eauto].
        rewrite Heq in Ha. rewrite Hpte in Ha. inversion Ha; subst a.
        eexists. split; [done|]. by destruct modify_.
      * simpl. rewrite dom_insert_lookup_L by (by rewrite Hp). done.
    + destruct (has_replace_dec (Kernel.replacer k)) as [Hhas|Hno];
        [|destruct (MMU.freeTable (Kernel.mmu k)) as [|f fs] eqn:Hfree].
      * destruct (handlePageFault_spec fuel pid z k pte Hwf (or_introl Hhas)
                    Hpte Hpres Hfuel) as (k' & Hrun & Hwf' & Hdom).
        left. exists k'. split_and!; [done|done|by rewrite Hdom].
      * right. split_and!; [done|done|eauto|].
        by apply (handlePageFault_no_replace fuel pid z k pte).
      * destruct (handlePageFault_spec fuel pid z k pte Hwf) as
          (k' & Hrun & Hwf' & Hdom); [right; by rewrite Hfree|done|done|done|].
        left. exists k'. split_and!; [done|done|by rewrite Hdom].
  - unfold Kernel.dispatch. left.
    destruct (Kernel.processes k !! pid) as [p|] eqn:Hp.
    + destruct (terminateProcess_spec k pid p Hwf Hp) as (k' & Hrun & Hwf' & Hps).
      rewrite Hrun. exists k'. split_and!; [done|done|].
      rewrite Hps, dom_delete_L. intros x [Hx _]%elem_of_difference. done.
    + unfold Kernel.terminateProcess.
      erewrite bind_Throw by (by apply get_process_None). simpl. eauto.
Qed.

Lemma syscall_spec fuel sc k :
  Kernel_wf k ->
  has_replace (Kernel.replacer k) ->
  (length (MMU.busyTable (Kernel.mmu k)) < fuel)%nat ->
  exists k',
    Kernel.syscall fuel sc k = Ok tt k' /\
    Kernel_wf k' /\
    dom (Kernel.processes k') ⊆ dom (Kernel.processes k).
Proof.
  intros Hwf Hhas Hfuel.
  destruct (syscall_cases fuel sc k Hwf Hfuel) as [?|[Hno _]]; [done|].
  by destruct Hno.
Qed.

(** With a replacer object in [#replacer], [syscall] returns normally on
    every syscall in a kernel state that satisfies the kernel invariant, and
    the invariant holds again. An exception thrown in the [try] block is
    caught; the kernel state at the throw is the state before the call; a
    [TypeError], as raised for an unknown pid or a page that is no index of
    the page table, is discarded and that state is the result; a [PageFault]
    is handed to the page-fault handler, which returns. *)
Theorem syscall_returns_with_replacer
        (k : Kernel.t) (sc : Syscall.t) (fuel : nat) :
  Kernel_wf k ->
  has_replace (Kernel.replacer k) ->
  (length (MMU.busyTable (Kernel.mmu k)) < fuel)%nat ->
  (exists k', Kernel.syscall fuel sc k = Ok tt k' /\ Kernel_wf k') /\
  (forall k1, Kernel.dispatch sc k = Throw TypeError k1 ->
              k1 = k /\ Kernel.syscall fuel sc k = Ok tt k) /\
  (forall pid page k1,
      Kernel.dispatch sc k = Throw (PageFault pid page) k1 ->
      k1 = k /\
      Kernel.syscall fuel sc k = Kernel.handlePageFault fuel pid page k /\
      exists k', Kernel.handlePageFault fuel pid page k = Ok tt k').
Proof.
  intros Hwf Hhas Hfuel.
  destruct (syscall_spec fuel sc k Hwf Hhas Hfuel) as (k' & Hrun & Hwf' & _).
  assert (forall e k1, Kernel.dispatch sc k = Throw e k1 -> k1 = k) as Hstate.
  { intros e k1. destruct sc as [pid page modify_|pid].
    - rewrite dispatch_access.
      destruct (page ≫= _) as [[z pte]|]; [|by intros [=]].
      destruct (PageTableEntry.presented pte); [|by intros [=]].
      destruct (Kernel.processes k !! pid); by intros [=].
    - unfold Kernel.dispatch.
      destruct (Kernel.processes k !! pid) as [p|] eqn:Hp.
      + destruct (terminateProcess_spec k pid p Hwf Hp) as (k2 & -> & _). done.
      + unfold Kernel.terminateProcess.
        erewrite bind_Throw by (by apply get_process_None). by intros [=]. }
  split_and!.
  - eauto.
  - intros k1 Hd. pose proof (Hstate _ _ Hd) as ->. split; [done|].
    unfold Kernel.syscall, try_catch. by rewrite Hd.
  - intros pid page k1 Hd. pose proof (Hstate _ _ Hd) as ->.
    assert (Kernel.syscall fuel sc k = Kernel.handlePageFault fuel pid page k)
      as Heq by (unfold Kernel.syscall, try_catch; by rewrite Hd).
    split_and!; [done|done|]. rewrite <- Heq. eauto.
Qed.

Lemma Kernel_wf_tiny : Kernel_wf tiny_kernel.
Proof.
  split.
  - split; simpl.
    + apply NoDup_singleton.
    + apply (NoDup_seqZ 0 3).
    + intros fid ->%list_elem_of_singleton Hin.
      apply (elem_of_seqZ 0 3) in Hin. lia.
    + intros fid ->%list_elem_of_singleton. lia.
    + intros fid Hin. apply (elem_of_seqZ 0 3) in Hin. lia.
    + intros fid Hfid. destruct (decide (fid = 3)) as [->|Hne].
      * left. by apply list_elem_of_singleton.
      * right. apply (elem_of_seqZ 0 3). lia.
  - discriminate.
  - intros fid frame ->%list_elem_of_singleton Hg.
    vm_compute in Hg. inversion Hg; subst. eexists. split_and!; reflexivity.
  - exists 0. split; [reflexivity|lia].
  - apply RNG_valid_halves.
  - intros fid frame Hin Hget. apply (elem_of_seqZ 0 3) in Hin.
    assert (fid = 0 \/ fid = 1 \/ fid = 2) as [->|[->| ->]] by lia;
      vm_compute in Hget; by inversion Hget.
Defined.

Lemma syscall_returns_with_replacer_witness :
  exists k',
    Kernel.syscall 2 (Syscall.AccessMemory 1000 None true) tiny_kernel =
    Ok tt k'.
Proof.
  destruct (syscall_returns_with_replacer tiny_kernel
              (Syscall.AccessMemory 1000 None true) 2 Kernel_wf_tiny)
    as ((k' & Hrun & _) & _); [exact I|simpl; lia|].
  exists k'. exact Hrun.
Defined.

(** The three cases of [syscall] on the small kernel: an [undefined] page is
    swallowed and nothing changes; a fault on page [1] takes the free frame
    [2]. *)
Example syscall_undefined_page :
  Kernel.syscall 2 (Syscall.AccessMemory 1000 None true) tiny_kernel =
  Ok tt tiny_kernel.
Proof. unfold Kernel.syscall, try_catch. by rewrite dispatch_access. Qed.

Example syscall_page_fault_binds_free_frame :
  exists k',
    Kernel.syscall 2 (Syscall.AccessMemory 1000 (Some 1) true) tiny_kernel =
      Ok tt k' /\
    Kernel.pte_at k' (1000, 1) =
      Some {| PageTableEntry.presented := true;
              PageTableEntry.referenced := false;
              PageTableEntry.modified := false;
              PageTableEntry.fid := 0;
              PageTableEntry.frame := Some 2 |} /\
    MMU.busyTable (Kernel.mmu k') = [3; 2] /\
    Kernel.faults (Kernel.accessStats k') = 1.
Proof. eexists. split_and!; vm_compute; reflexivity. Qed.

(** ** [syscall] under a key that the registry inherits *)

Lemma Q_unit_0 : Q_unit 0.
Proof. apply (Q_unit_dyadic 0 0); lia. Qed.

Lemma RNG_valid_fill_stream : RNG_valid fill_stream.
Proof.
  intros i. simpl. unfold fill_draw. set (z := Z.of_nat i).
  repeat case_match; try apply Q_unit_0.
  - apply (Q_unit_dyadic 7 3); lia.
  - assert (0 <= (z - 2) / 68 < 16) by (split; [apply Z.div_pos|
      apply Z.div_lt_upper_bound]; lia).
    apply (Q_unit_dyadic ((z - 2) / 68) 4); simpl; lia.
  - apply (Q_unit_dyadic 63 6); lia.
  - pose proof (Z.mod_pos_bound (z - 682) 193 ltac:(lia)).
    assert (0 <= ((z - 682) mod 193 - 1) / 3 < 64) by (split; [apply Z.div_pos|
      apply Z.div_lt_upper_bound]; lia).
    apply (Q_unit_dyadic (((z - 682) mod 193 - 1) / 3) 6); simpl; lia.
Qed.

(** C10, on the code. The registry [#REPLACER] is a plain object, so the key
    [constructor] finds [Object] on its prototype: the assertion of the
    constructor passes and [new Object(this)] is the kernel itself, which has
    no method [replace]. In the run of [node main.js constructor] with the
    draws [fill_stream], the constructor returns; the time slices of the
    first eight processes return and take the last free frame; the first
    step of the ninth process enters [syscall] with
    [AccessMemory(5500, 0, true)]; the [try] block throws a [PageFault],
    which is caught, and the page-fault handler, called in the [catch]
    block, throws a [TypeError] at [this.#replacer.replace()]: [syscall]
    propagates it, with both counters already incremented, and so does the
    loop body of [run]. *)
Theorem syscall_propagates_without_replace_method :
  exists k0 k1 process k k',
    Kernel.new 1 "constructor" fill_stream = Ok tt k0 /\
    Kernel.replacer k0 = Kernel.TheKernel /\
    for_of fill_turns (turn_of 1) k0 = Ok tt k1 /\
    MMU.freeTable (Kernel.mmu k1) = [] /\
    Kernel.processes k1 !! 5500 = Some process /\
    step_entry 5500 process
      (Kernel.with_entropy (Util.rand 64 128 (Kernel.entropy k1)).2 k1) =
      (Syscall.AccessMemory 5500 (Some 0) true, false, k) /\
    Kernel.dispatch (Syscall.AccessMemory 5500 (Some 0) true) k =
      Throw (PageFault 5500 0) k /\
    (forall fuel,
        Kernel.syscall fuel (Syscall.AccessMemory 5500 (Some 0) true) k =
        Throw TypeError k') /\
    Kernel.faults (Kernel.accessStats k') =
      Kernel.faults (Kernel.accessStats k) + 1 /\
    Kernel.replaced (Kernel.accessStats k') =
      Kernel.replaced (Kernel.accessStats k) + 1 /\
    (forall fuel, turn_of fuel 5500 k1 = Throw TypeError k').
Proof.
  pose (state := fun (o : outcome Kernel.t unit) =>
                   match o with
                   | Ok _ k | Throw _ k => k
                   | OutOfFuel => tiny_kernel
                   end).
  pose (k0 := state (Kernel.new 1 "constructor" fill_stream)).
  pose (k1 := state (for_of fill_turns (turn_of 1) k0)).
  pose (process := default tiny_process (Kernel.processes k1 !! 5500)).
  pose (k := (step_entry 5500 process
                (Kernel.with_entropy
                   (Util.rand 64 128 (Kernel.entropy k1)).2 k1)).2).
  pose (k' := state (Kernel.syscall 0
                       (Syscall.AccessMemory 5500 (Some 0) true) k)).
  exists k0, k1, process, k, k'.
  split_and!; try intros fuel; vm_compute; reflexivity.
Qed.

(** ** Spawning: the rejection loop of [rand] *)





(** ** Spawning: the constructor of a process *)


Lemma run_draws p g : Util.draws (Process.rng (Process.run p g)) = Util.draws g.
Proof.
  destruct (Z.le_gt_cases (Process.ttl p) (Process.counter p)) as [H|H].
  - by rewrite run_exit.
  - rewrite run_access by lia. simpl.
    unfold Process.select_set. simpl. apply maybe_rotate_draws.
Qed.

(** ** Spawning: the loop *)



(** ** The invariant along a run *)





Lemma run_process_entry fuel pid p k :
  Kernel.run_process fuel pid p k =
  (Kernel.syscall fuel (step_entry pid p k).1.1;;; ret (step_entry pid p k).1.2)
    (step_entry pid p k).2.
Proof. reflexivity. Qed.

Lemma step_entry_wf pid p k :
  Kernel_wf k ->
  Kernel.processes k !! pid = Some p ->
  Kernel_wf (step_entry pid p k).2 /\
  Kernel.mmu (step_entry pid p k).2 = Kernel.mmu k /\
  Kernel.replacer (step_entry pid p k).2 = Kernel.replacer k /\
  dom (Kernel.processes (step_entry pid p k).2) = dom (Kernel.processes k).
Proof.
  intros Hwf Hp. unfold step_entry.
  cbn [fst snd Kernel.entropy Kernel.with_accessStats Kernel.processes].
  set (st := Process.run p (Kernel.entropy k)).
  split_and!; [|done|done|].
  - split; simpl; try apply Hwf.
    + intros fid frame Hin Hget.
      destruct (kwf_busy k Hwf fid frame Hin Hget) as (pte & Hpte & ? & ?).
      exists pte. split_and!; try done.
      unfold Kernel.pte_at in *.
      cbn [fst snd Kernel.processes Kernel.with_entropy
           Kernel.with_processes] in *.
      destruct (decide (Frame.pid frame = pid)) as [Heq|Hne].
      * rewrite Heq in *. rewrite lookup_insert_eq. rewrite Hp in Hpte.
        pose proof (run_counter p (Kernel.entropy k)) as (_ & _ & _ & Hpt & _).
        fold st in Hpt. by rewrite Hpt.
      * by rewrite lookup_insert_ne.
    + intros i. unfold st. rewrite run_draws. apply (kwf_rng k Hwf).
  - simpl. apply dom_insert_lookup_L. by rewrite Hp.
Qed.

(** A step of a live process under the invariant returns, unless its page
    fault needs a victim and the value of [#replacer] has no method
    [replace]. *)
Lemma run_process_cases fuel pid p k :
  Kernel_wf k ->
  Kernel.processes k !! pid = Some p ->
  (length (MMU.busyTable (Kernel.mmu k)) < fuel)%nat ->
  (exists b k',
      Kernel.run_process fuel pid p k = Ok b k' /\
      Kernel_wf k' /\
      dom (Kernel.processes k') ⊆ dom (Kernel.processes k)) \/
  (~ has_replace (Kernel.replacer k) /\
   MMU.freeTable (Kernel.mmu k) = [] /\
   exists k', Kernel.run_process fuel pid p k = Throw TypeError k').
Proof.
  intros Hwf Hp Hfuel. rewrite run_process_entry.
  destruct (step_entry_wf pid p k Hwf Hp) as (Hwf2 & Hmmu2 & Hrep2 & Hdom2).
  destruct (syscall_cases fuel (step_entry pid p k).1.1 (step_entry pid p k).2
              Hwf2) as [(k' & Hrun & Hwf' & Hdom')|(Hno & Hfree & _ & Hrun)].
  - by rewrite Hmmu2.
  - left. exists (step_entry pid p k).1.2, k'.
    erewrite bind_Ok by exact Hrun. split_and!; [done|done|].
    by rewrite <- Hdom2.
  - right. rewrite <- Hrep2, <- Hmmu2. split_and!; [done|done|].
    eexists. erewrite bind_Throw by exact Hrun. reflexivity.
Qed.


Lemma run_process_spec fuel pid p k :
  Kernel_wf k ->
  has_replace (Kernel.replacer k) ->
  Kernel.processes k !! pid = Some p ->
  (length (MMU.busyTable (Kernel.mmu k)) < fuel)%nat ->
  exists b k',
    Kernel.run_process fuel pid p k = Ok b k' /\
    Kernel_wf k' /\
    dom (Kernel.processes k') ⊆ dom (Kernel.processes k).
Proof.
  intros Hwf Hhas Hp Hfuel.
  destruct (run_process_cases fuel pid p k Hwf Hp Hfuel) as [?|[Hno _]];
    [done|by destruct Hno].
Qed.





(** ** A stream without early repetitions *)




(** ** Spawning: the claim *)


